(** * An interrupt-driven TWI (I2C) slave driver with FIFO buffers

    Shallow embedding of [twiSlave.c]: the two circular byte buffers
    [rxBuf]/[txBuf] with their head and tail indices, the accessor functions
    the application calls, and the interrupt service routine [TWI_vect] that
    moves bytes between the bus data register and the buffers.

    Every C object of the driver is eight bits wide, so each one is a [Z]
    and each store wraps modulo 256.  The statics and the four hardware
    registers form one record; the functions are written in a small
    state-and-failure monad over it, where failure stands for an array
    access outside the array. *)

From Stdlib Require Import ZArith List Lia Bool.
From stdpp Require Import base option list.
Import ListNotations.

#[local] Open Scope Z_scope.

(** ** Eight-bit values *)

(** What a store into a [uint8_t] object or an 8-bit I/O register keeps. *)
Definition u8 (x : Z) : Z := x mod 256.

Definition is_u8 (x : Z) : Prop := 0 <= x < 256.

(** C's [<<] and [|] on [int] operands. *)
Notation "a .<< b" := (Z.shiftl a b) (at level 32, left associativity) : Z_scope.
Notation "a .| b" := (Z.lor a b) (at level 36, left associativity) : Z_scope.
Notation "a .& b" := (Z.land a b) (at level 34, left associativity) : Z_scope.

(** ** Status codes (the local defines of twiSlave.c) *)

Definition TWI_SRX_ADR_ACK            : Z := 0x60.
Definition TWI_SRX_ADR_ACK_M_ARB_LOST : Z := 0x68.
Definition TWI_SRX_GEN_ACK            : Z := 0x70.
Definition TWI_SRX_GEN_ACK_M_ARB_LOST : Z := 0x78.
Definition TWI_SRX_ADR_DATA_ACK       : Z := 0x80.
Definition TWI_SRX_ADR_DATA_NACK      : Z := 0x88.
Definition TWI_SRX_GEN_DATA_ACK       : Z := 0x90.
Definition TWI_SRX_GEN_DATA_NACK      : Z := 0x98.
Definition TWI_SRX_STOP_RESTART       : Z := 0xA0.
Definition TWI_STX_ADR_ACK            : Z := 0xA8.
Definition TWI_STX_ADR_ACK_M_ARB_LOST : Z := 0xB0.
Definition TWI_STX_DATA_ACK           : Z := 0xB8.
Definition TWI_STX_DATA_NACK          : Z := 0xC0.
Definition TWI_STX_DATA_ACK_LAST_BYTE : Z := 0xC8.
Definition TWI_NO_STATE               : Z := 0xF8.
Definition TWI_BUS_ERROR              : Z := 0x00.

(** ** Bit positions in the control register TWCR

    These come from the toolchain's <avr/io.h>, not from the driver: the
    layout of TWCR on the AVR parts that have the TWI unit. *)

Definition TWINT : Z := 7.
Definition TWEA  : Z := 6.
Definition TWSTA : Z := 5.
Definition TWSTO : Z := 4.
Definition TWWC  : Z := 3.
Definition TWEN  : Z := 2.
Definition TWIE  : Z := 0.

(** ** Driver state *)

(** The file-scope statics of twiSlave.c and the TWI registers it touches.
    [TWAR] and [TWCR] hold the value last written by the driver; [TWSR] and
    [TWDR] hold what the hardware presents when the interrupt fires ([TWDR]
    is also written by the handler). *)
Record twi : Type := mkTwi {
  rxBuf  : list Z;
  rxHead : Z;
  rxTail : Z;
  txBuf  : list Z;
  txHead : Z;
  txTail : Z;
  TWAR   : Z;
  TWCR   : Z;
  TWDR   : Z;
  TWSR   : Z
}.

(** The eight-bit scalar objects and the two arrays, by name. *)
Inductive cell : Type :=
  | RxHead | RxTail | TxHead | TxTail | RegTWAR | RegTWCR | RegTWDR | RegTWSR.

Inductive array : Type := RxBuf | TxBuf.

Definition get_cell (c : cell) (s : twi) : Z :=
  match c with
  | RxHead => rxHead s | RxTail => rxTail s
  | TxHead => txHead s | TxTail => txTail s
  | RegTWAR => TWAR s | RegTWCR => TWCR s
  | RegTWDR => TWDR s | RegTWSR => TWSR s
  end.

Definition set_cell (c : cell) (v : Z) (s : twi) : twi :=
  match c with
  | RxHead  => mkTwi (rxBuf s) v (rxTail s) (txBuf s) (txHead s) (txTail s) (TWAR s) (TWCR s) (TWDR s) (TWSR s)
  | RxTail  => mkTwi (rxBuf s) (rxHead s) v (txBuf s) (txHead s) (txTail s) (TWAR s) (TWCR s) (TWDR s) (TWSR s)
  | TxHead  => mkTwi (rxBuf s) (rxHead s) (rxTail s) (txBuf s) v (txTail s) (TWAR s) (TWCR s) (TWDR s) (TWSR s)
  | TxTail  => mkTwi (rxBuf s) (rxHead s) (rxTail s) (txBuf s) (txHead s) v (TWAR s) (TWCR s) (TWDR s) (TWSR s)
  | RegTWAR => mkTwi (rxBuf s) (rxHead s) (rxTail s) (txBuf s) (txHead s) (txTail s) v (TWCR s) (TWDR s) (TWSR s)
  | RegTWCR => mkTwi (rxBuf s) (rxHead s) (rxTail s) (txBuf s) (txHead s) (txTail s) (TWAR s) v (TWDR s) (TWSR s)
  | RegTWDR => mkTwi (rxBuf s) (rxHead s) (rxTail s) (txBuf s) (txHead s) (txTail s) (TWAR s) (TWCR s) v (TWSR s)
  | RegTWSR => mkTwi (rxBuf s) (rxHead s) (rxTail s) (txBuf s) (txHead s) (txTail s) (TWAR s) (TWCR s) (TWDR s) v
  end.

Definition get_array (a : array) (s : twi) : list Z :=
  match a with RxBuf => rxBuf s | TxBuf => txBuf s end.

Definition set_array (a : array) (l : list Z) (s : twi) : twi :=
  match a with
  | RxBuf => mkTwi l (rxHead s) (rxTail s) (txBuf s) (txHead s) (txTail s) (TWAR s) (TWCR s) (TWDR s) (TWSR s)
  | TxBuf => mkTwi (rxBuf s) (rxHead s) (rxTail s) l (txHead s) (txTail s) (TWAR s) (TWCR s) (TWDR s) (TWSR s)
  end.

(** ** The driver monad: state passing, [None] for an out-of-bounds access *)

Definition drv (A : Type) : Type := twi -> option (A * twi).

#[global] Instance drv_ret : MRet drv := fun A x s => Some (x, s).

#[global] Instance drv_bind : MBind drv := fun A B f m s =>
  match m s with
  | Some (a, s') => f a s'
  | None => None
  end.

(** Reading and writing a scalar; a write keeps the low eight bits. *)
Definition load (c : cell) : drv Z := fun s => Some (get_cell c s, s).

Definition store (c : cell) (v : Z) : drv unit :=
  fun s => Some (tt, set_cell c (u8 v) s).

(** [a[i]] as an rvalue and [a[i] = v]; both fail outside the array. *)
Definition rd (a : array) (i : Z) : drv Z := fun s =>
  if 0 <=? i then
    match get_array a s !! Z.to_nat i with
    | Some x => Some (x, s)
    | None => None
    end
  else None.

Definition wr (a : array) (i v : Z) : drv unit := fun s =>
  if (0 <=? i) && (i <? Z.of_nat (length (get_array a s))) then
    Some (tt, set_array a (<[Z.to_nat i := u8 v]> (get_array a s)) s)
  else None.

(** What a run returns, and the state it leaves. *)
Definition result {A} (m : drv A) (s : twi) : option A := fst <$> m s.
Definition final {A} (m : drv A) (s : twi) : option twi := snd <$> m s.

(** ** The bytes a circular buffer holds

    The abstraction the FIFO properties are stated with: starting behind
    [tail], the slots up to and including [head], oldest first. *)

Definition slot (buf : list Z) (i : Z) : Z := default 0 (buf !! Z.to_nat i).

Fixpoint walk (size : Z) (buf : list Z) (tail : Z) (n : nat) : list Z :=
  match n with
  | O => []
  | S n' =>
      let t' := (tail + 1) mod size in
      slot buf t' :: walk size buf t' n'
  end.

Definition count (size head tail : Z) : Z := (head - tail) mod size.

Definition pending (size : Z) (buf : list Z) (head tail : Z) : list Z :=
  walk size buf tail (Z.to_nat (count size head tail)).

(** A buffer as the code keeps it: the array has its declared length and
    holds bytes, and both indices are inside it. *)
Record ring_ok (size : Z) (buf : list Z) (head tail : Z) : Prop := {
  ring_len  : Z.of_nat (length buf) = size;
  ring_head : 0 <= head < size;
  ring_tail : 0 <= tail < size;
  ring_u8   : Forall is_u8 buf
}.

(** ** The driver *)

Section Driver.

(** Modelled from the spec: twiSlave.h, which defines the four macros
    TWI_RX_BUFFER_SIZE, TWI_RX_BUFFER_MASK, TWI_TX_BUFFER_SIZE and
    TWI_TX_BUFFER_MASK, is not among the sources.  The spec gives a buffer
    a capacity C that is a power of two and indices that wrap modulo C
    through a bitmask; the exponents are parameters here, and the indices
    being [uint8_t] bounds them by eight. *)
Variables rx_bits tx_bits : Z.
Hypothesis rx_bits_range : 0 <= rx_bits <= 8.
Hypothesis tx_bits_range : 0 <= tx_bits <= 8.

#[local] Set Default Proof Using "Type".

Definition TWI_RX_BUFFER_SIZE : Z := 2 ^ rx_bits.
Definition TWI_RX_BUFFER_MASK : Z := TWI_RX_BUFFER_SIZE - 1.
Definition TWI_TX_BUFFER_SIZE : Z := 2 ^ tx_bits.
Definition TWI_TX_BUFFER_MASK : Z := TWI_TX_BUFFER_SIZE - 1.

Definition flushTwiBuffers : drv unit :=
  store RxTail 0 ;;
  store RxHead 0 ;;
  store TxTail 0 ;;
  store TxHead 0.

Definition twiSlaveInit (adrs : Z) : drv unit :=
  store RegTWAR ((adrs .<< 1) .| 0) ;;
  store RegTWCR ((1 .<< TWEN) .| (0 .<< TWIE) .| (0 .<< TWINT) .| (0 .<< TWEA)
                 .| (0 .<< TWSTA) .| (0 .<< TWSTO) .| (0 .<< TWWC)) ;;
  mret tt.

Definition twiSlaveEnable : drv unit :=
  store RegTWCR ((1 .<< TWEN) .| (1 .<< TWIE) .| (1 .<< TWINT) .| (1 .<< TWEA)
                 .| (0 .<< TWSTA) .| (0 .<< TWSTO) .| (0 .<< TWWC)).

Definition twiTransmitByte (data : Z) : drv unit :=
  h ← load TxHead ;
  let tmphead := u8 ((h + 1) .& TWI_TX_BUFFER_MASK) in
  t ← load TxTail ;
  if tmphead =? t then mret tt
  else
    wr TxBuf tmphead data ;;
    store TxHead tmphead.

Definition twiReceiveByte : drv Z :=
  h ← load RxHead ;
  t ← load RxTail ;
  if h =? t then mret 0x88
  else
    t ← load RxTail ;
    store RxTail ((t + 1) .& TWI_RX_BUFFER_MASK) ;;
    i ← load RxTail ;
    rd RxBuf i.

Definition twiDataInReceiveBuffer : drv bool :=
  h ← load RxHead ;
  t ← load RxTail ;
  mret (negb (h =? t)).

Definition twiDataInTransmitBuffer : drv bool :=
  h ← load TxHead ;
  t ← load TxTail ;
  mret (negb (h =? t)).

Definition twiClearOutput : drv unit :=
  store TxTail 0 ;;
  store TxHead 0.

Definition twiStuffRxBuf (data : Z) : drv unit :=
  h ← load RxHead ;
  let tmphead := u8 ((h + 1) .& TWI_RX_BUFFER_MASK) in
  t ← load RxTail ;
  if tmphead =? t then mret tt
  else
    wr RxBuf tmphead data ;;
    store RxHead tmphead.

(** The value every ordinary branch of the handler writes to TWCR. *)
Definition TWCR_rearm : Z :=
  (1 .<< TWEN) .| (1 .<< TWIE) .| (1 .<< TWINT) .| (1 .<< TWEA).

(** The interrupt service routine: a [switch] on the status register. *)
Definition TWI_vect : drv unit :=
  sr ← load RegTWSR ;
  if sr =? TWI_SRX_ADR_ACK then
    store RegTWCR TWCR_rearm
  else if (sr =? TWI_SRX_ADR_DATA_ACK) || (sr =? TWI_SRX_GEN_DATA_ACK) then
    d ← load RegTWDR ;
    twiStuffRxBuf d ;;
    store RegTWCR TWCR_rearm
  else if sr =? TWI_SRX_GEN_ACK then
    store RegTWCR TWCR_rearm
  else if (sr =? TWI_STX_ADR_ACK) || (sr =? TWI_STX_DATA_ACK) then
    h ← load TxHead ;
    t ← load TxTail ;
    (if negb (h =? t) then
       t ← load TxTail ;
       store TxTail ((t + 1) .& TWI_TX_BUFFER_MASK) ;;
       i ← load TxTail ;
       b ← rd TxBuf i ;
       store RegTWDR b
     else
       store RegTWDR 0x88) ;;
    store RegTWCR TWCR_rearm
  else if sr =? TWI_STX_DATA_NACK then
    store RegTWCR TWCR_rearm
  else if sr =? TWI_SRX_STOP_RESTART then
    store RegTWCR TWCR_rearm
  else if (sr =? TWI_SRX_ADR_DATA_NACK) || (sr =? TWI_SRX_GEN_DATA_NACK)
          || (sr =? TWI_STX_DATA_ACK_LAST_BYTE) || (sr =? TWI_NO_STATE)
          || (sr =? TWI_BUS_ERROR) then
    store RegTWCR ((1 .<< TWSTO) .| (1 .<< TWINT))
  else
    store RegTWCR TWCR_rearm.

(** The hardware side of a bus event: the TWI unit latches a status code,
    and for a receive event the byte taken from the bus, then raises the
    interrupt. *)
Definition bus_event (status : Z) : drv unit :=
  store RegTWSR status ;; TWI_vect.

Definition bus_event_data (status data : Z) : drv unit :=
  store RegTWSR status ;; store RegTWDR data ;; TWI_vect.



(** ** What the buffers hold, and when the state is well formed *)

Definition rx_pending (s : twi) : list Z :=
  pending TWI_RX_BUFFER_SIZE (rxBuf s) (rxHead s) (rxTail s).

Definition tx_pending (s : twi) : list Z :=
  pending TWI_TX_BUFFER_SIZE (txBuf s) (txHead s) (txTail s).

Definition rx_ok (s : twi) : Prop :=
  ring_ok TWI_RX_BUFFER_SIZE (rxBuf s) (rxHead s) (rxTail s).

Definition tx_ok (s : twi) : Prop :=
  ring_ok TWI_TX_BUFFER_SIZE (txBuf s) (txHead s) (txTail s).

Definition wf (s : twi) : Prop := rx_ok s /\ tx_ok s.

(** The statics as the C runtime hands them over: all zero.  The hardware
    registers are whatever they are. *)
Definition zero_initialized (s : twi) : Prop :=
  rxBuf s = replicate (Z.to_nat TWI_RX_BUFFER_SIZE) 0 /\
  rxHead s = 0 /\ rxTail s = 0 /\
  txBuf s = replicate (Z.to_nat TWI_TX_BUFFER_SIZE) 0 /\
  txHead s = 0 /\ txTail s = 0.

(** The four indices are inside their arrays. *)
Definition in_bounds (s : twi) : Prop :=
  Z.of_nat (length (rxBuf s)) = TWI_RX_BUFFER_SIZE /\
  Z.of_nat (length (txBuf s)) = TWI_TX_BUFFER_SIZE /\
  0 <= rxHead s < TWI_RX_BUFFER_SIZE /\
  0 <= rxTail s < TWI_RX_BUFFER_SIZE /\
  0 <= txHead s < TWI_TX_BUFFER_SIZE /\
  0 <= txTail s < TWI_TX_BUFFER_SIZE.

(** What an operation leaves alone. *)
Definition same_rx (s s' : twi) : Prop :=
  rxBuf s' = rxBuf s /\ rxHead s' = rxHead s /\ rxTail s' = rxTail s.

Definition same_tx (s s' : twi) : Prop :=
  txBuf s' = txBuf s /\ txHead s' = txHead s /\ txTail s' = txTail s.

Definition same_regs (s s' : twi) : Prop :=
  TWAR s' = TWAR s /\ TWCR s' = TWCR s /\ TWDR s' = TWDR s /\ TWSR s' = TWSR s.

(** The two arrays as declared, whatever the indices are. *)
Definition arrays_ok (s : twi) : Prop :=
  Z.of_nat (length (rxBuf s)) = TWI_RX_BUFFER_SIZE /\ Forall is_u8 (rxBuf s) /\
  Z.of_nat (length (txBuf s)) = TWI_TX_BUFFER_SIZE /\ Forall is_u8 (txBuf s).

(** ** Sequences of receive-buffer operations *)

(** A producer step pushes a byte; a consumer step follows the protocol the
    driver documents: probe with [twiDataInReceiveBuffer], and read only
    when it says there is data. *)
Inductive fifo_op : Type :=
  | Push (b : Z)
  | Pop.

Definition rx_op (op : fifo_op) : drv (list Z) :=
  match op with
  | Push b => twiStuffRxBuf b ;; mret []
  | Pop =>
      avail ← twiDataInReceiveBuffer ;
      if avail : bool then b ← twiReceiveByte ; mret [b] else mret []
  end.

Fixpoint rx_ops (ops : list fifo_op) : drv (list Z) :=
  match ops with
  | [] => mret []
  | op :: rest =>
      out ← rx_op op ;
      outs ← rx_ops rest ;
      mret (out ++ outs)
  end.

Definition pushed (ops : list fifo_op) : list Z :=
  flat_map (fun op => match op with Push b => [b] | Pop => [] end) ops.

(** With [n] bytes pending, no push of [ops] finds the buffer already
    holding [cap - 1] bytes. *)
Fixpoint fits (cap n : Z) (ops : list fifo_op) : bool :=
  match ops with
  | [] => true
  | Push _ :: rest => (n + 1 <=? cap - 1) && fits cap (n + 1) rest
  | Pop :: rest => fits cap (Z.max 0 (n - 1)) rest
  end.

(** ** Everything that can happen to the driver *)

Inductive call : Type :=
  | CallFlush
  | CallInit (adrs : Z)
  | CallEnable
  | CallTransmit (data : Z)
  | CallReceive
  | CallDataInReceiveBuffer
  | CallDataInTransmitBuffer
  | CallClearOutput
  | CallStuffRxBuf (data : Z)
  | BusEvent (status data : Z).

Definition exec (c : call) : drv unit :=
  match c with
  | CallFlush => flushTwiBuffers
  | CallInit adrs => twiSlaveInit adrs
  | CallEnable => twiSlaveEnable
  | CallTransmit data => twiTransmitByte data
  | CallReceive => twiReceiveByte ;; mret tt
  | CallDataInReceiveBuffer => twiDataInReceiveBuffer ;; mret tt
  | CallDataInTransmitBuffer => twiDataInTransmitBuffer ;; mret tt
  | CallClearOutput => twiClearOutput
  | CallStuffRxBuf data => twiStuffRxBuf data
  | BusEvent status data => bus_event_data status data
  end.

Fixpoint run (cs : list call) : drv unit :=
  match cs with
  | [] => mret tt
  | c :: rest => exec c ;; run rest
  end.

(** ** Bursts of calls and of bus events *)

(** The application queues a block of bytes for the master to read. *)
Fixpoint transmit_all (bs : list Z) : drv unit :=
  match bs with
  | [] => mret tt
  | b :: rest => twiTransmitByte b ;; transmit_all rest
  end.

(** The test entry point called once per byte of a block. *)
Fixpoint stuff_all (bs : list Z) : drv unit :=
  match bs with
  | [] => mret tt
  | b :: rest => twiStuffRxBuf b ;; stuff_all rest
  end.

(** The master writes a block: one data-received event per byte. *)
Fixpoint receive_events (status : Z) (ds : list Z) : drv unit :=
  match ds with
  | [] => mret tt
  | d :: rest => bus_event_data status d ;; receive_events status rest
  end.


(** How many more bytes a buffer takes before pushes are dropped. *)
Definition rx_room (s : twi) : nat :=
  (Z.to_nat (TWI_RX_BUFFER_SIZE - 1) - length (rx_pending s))%nat.

Definition tx_room (s : twi) : nat :=
  (Z.to_nat (TWI_TX_BUFFER_SIZE - 1) - length (tx_pending s))%nat.

(** The case labels of the handler's forced-stop branch. *)
Definition is_error_status (sr : Z) : bool :=
  (sr =? TWI_SRX_ADR_DATA_NACK) || (sr =? TWI_SRX_GEN_DATA_NACK)
  || (sr =? TWI_STX_DATA_ACK_LAST_BYTE) || (sr =? TWI_NO_STATE)
  || (sr =? TWI_BUS_ERROR).

(** ** Sample states, for buffers of eight bytes *)

Definition demo_idle : twi :=
  mkTwi (replicate 8 0) 0 0 (replicate 8 0) 0 0 0 0 0 0.

(** Seven bytes pending in each buffer: slots 1 to 7, oldest in slot 1. *)
Definition demo_full : twi :=
  mkTwi [0; 0x11; 0x12; 0x13; 0x14; 0x15; 0x16; 0x17] 7 0
        [0; 0x21; 0x22; 0x23; 0x24; 0x25; 0x26; 0x27] 7 0
        0 0 0 0.

(** Two bytes waiting to be sent, the interface addressed for reading. *)
Definition demo_read_request : twi :=
  mkTwi (replicate 8 0) 0 0 [0; 0x21; 0x22; 0; 0; 0; 0; 0] 2 0
        0xA0 0xC5 0x00 0xA8.

(** The hardware has flagged a bus error while both buffers hold bytes. *)
Definition demo_bus_error : twi :=
  mkTwi [0; 0x11; 0x12; 0; 0; 0; 0; 0] 2 0 [0; 0x21; 0x22; 0; 0; 0; 0; 0] 2 1
        0xA0 0xC5 0x00 0x00.

(** Following the spec's words ([push(byte) -> bool], "returns failure"):
    a push reports the failure when what it returns on the full buffer
    differs from what it returns where it stores the byte. *)
Definition reports_failure {A : Type} (push : drv A) (s_full s_room : twi) : Prop :=
  result push s_full <> result push s_room.

(** ** Arithmetic of the index wrap *)

Lemma u8_small x : is_u8 x -> u8 x = x.
Proof. intros H. unfold u8. apply Z.mod_small. exact H. Qed.

Lemma u8_is_u8 x : is_u8 (u8 x).
Proof. unfold is_u8, u8. apply Z.mod_pos_bound. lia. Qed.

Lemma pow2_bits_bound bits : 0 <= bits <= 8 -> 1 <= 2 ^ bits <= 256.
Proof.
  intros [H0 H8]. split.
  - pose proof (Z.pow_pos_nonneg 2 bits). lia.
  - change 256 with (2 ^ 8). apply Z.pow_le_mono_r; lia.
Qed.

(** [(x + 1) & MASK], stored in a [uint8_t], is [x + 1] modulo the size. *)
Lemma masked_succ bits x :
  0 <= bits <= 8 -> 0 <= x ->
  u8 ((x + 1) .& (2 ^ bits - 1)) = (x + 1) mod 2 ^ bits.
Proof.
  intros Hb Hx.
  replace (2 ^ bits - 1) with (Z.ones bits) by (rewrite Z.ones_equiv; lia).
  rewrite Z.land_ones by lia.
  apply u8_small. unfold is_u8.
  pose proof (pow2_bits_bound bits Hb).
  pose proof (Z.mod_pos_bound (x + 1) (2 ^ bits)). lia.
Qed.

Lemma wrap_succ size x :
  0 <= x < size -> (x + 1) mod size = if x + 1 =? size then 0 else x + 1.
Proof.
  intros Hx. destruct (Z.eqb_spec (x + 1) size) as [->|Hne].
  - apply Z.mod_same. lia.
  - apply Z.mod_small. lia.
Qed.

Lemma wrap_diff size h t :
  0 <= h < size -> 0 <= t < size ->
  (h - t) mod size = if t <=? h then h - t else h - t + size.
Proof.
  intros Hh Ht. destruct (Z.leb_spec t h).
  - apply Z.mod_small. lia.
  - symmetry. apply Z.mod_unique with (q := -1); lia.
Qed.

Section Ring.

Variable size : Z.
Variable buf : list Z.

Lemma walk_length tail n : length (walk size buf tail n) = n.
Proof. revert tail. induction n as [|n IH]; intros tail; simpl; [|rewrite IH]; reflexivity. Qed.

Lemma pending_length head tail :
  0 <= head < size -> 0 <= tail < size ->
  Z.of_nat (length (pending size buf head tail)) = count size head tail.
Proof.
  intros Hh Ht. unfold pending. rewrite walk_length.
  unfold count. pose proof (Z.mod_pos_bound (head - tail) size). lia.
Qed.

Lemma count_bound head tail :
  0 <= head < size -> 0 <= tail < size -> 0 <= count size head tail <= size - 1.
Proof.
  intros Hh Ht. unfold count.
  pose proof (Z.mod_pos_bound (head - tail) size). lia.
Qed.

Lemma count_same i : 0 <= i < size -> count size i i = 0.
Proof. intros Hi. unfold count. rewrite Z.sub_diag. apply Z.mod_0_l. lia. Qed.

Lemma count_zero head tail :
  0 <= head < size -> 0 <= tail < size ->
  count size head tail = 0 <-> head = tail.
Proof.
  intros Hh Ht. unfold count. rewrite wrap_diff by assumption.
  destruct (Z.leb_spec tail head); lia.
Qed.

(** The buffer is full exactly when advancing [head] would hit [tail]. *)
Lemma count_full head tail :
  0 <= head < size -> 0 <= tail < size ->
  count size head tail = size - 1 <-> (head + 1) mod size = tail.
Proof.
  intros Hh Ht. unfold count. rewrite wrap_diff, wrap_succ by assumption.
  destruct (Z.leb_spec tail head), (Z.eqb_spec (head + 1) size); lia.
Qed.

Lemma count_push head tail :
  0 <= head < size -> 0 <= tail < size -> (head + 1) mod size <> tail ->
  count size ((head + 1) mod size) tail = count size head tail + 1.
Proof.
  intros Hh Ht Hne.
  assert (Hn : 0 <= (head + 1) mod size < size) by (apply Z.mod_pos_bound; lia).
  unfold count. rewrite (wrap_diff _ _ tail Hn Ht), (wrap_diff _ head tail Hh Ht).
  rewrite wrap_succ in * by assumption.
  destruct (Z.eqb_spec (head + 1) size), (Z.leb_spec tail head);
    destruct (Z.leb_spec tail 0); destruct (Z.leb_spec tail (head + 1)); lia.
Qed.

Lemma count_pop head tail :
  0 <= head < size -> 0 <= tail < size -> head <> tail ->
  count size head tail = count size head ((tail + 1) mod size) + 1.
Proof.
  intros Hh Ht Hne.
  assert (Hn : 0 <= (tail + 1) mod size < size) by (apply Z.mod_pos_bound; lia).
  unfold count. rewrite (wrap_diff _ head _ Hh Hn), (wrap_diff _ head tail Hh Ht).
  rewrite wrap_succ in * by assumption.
  destruct (Z.eqb_spec (tail + 1) size), (Z.leb_spec tail head);
    destruct (Z.leb_spec 0 head); destruct (Z.leb_spec (tail + 1) head); lia.
Qed.

Lemma pending_empty i : 0 <= i < size -> pending size buf i i = [].
Proof. intros Hi. unfold pending. rewrite count_same by assumption. reflexivity. Qed.

Lemma pending_nil_iff head tail :
  0 <= head < size -> 0 <= tail < size ->
  pending size buf head tail = [] <-> head = tail.
Proof.
  intros Hh Ht. rewrite <- (count_zero head tail Hh Ht).
  rewrite <- (pending_length head tail Hh Ht).
  destruct (pending size buf head tail); simpl; split; intros H; try reflexivity; try discriminate; lia.
Qed.

(** Popping: the oldest byte sits one slot behind [tail]. *)
Lemma pending_pop head tail :
  0 <= head < size -> 0 <= tail < size -> head <> tail ->
  pending size buf head tail =
  slot buf ((tail + 1) mod size) :: pending size buf head ((tail + 1) mod size).
Proof.
  intros Hh Ht Hne. unfold pending.
  rewrite (count_pop head tail Hh Ht Hne).
  assert (Hn : 0 <= (tail + 1) mod size < size) by (apply Z.mod_pos_bound; lia).
  pose proof (count_bound head _ Hh Hn) as Hc.
  rewrite Z2Nat.inj_add by lia. rewrite Nat.add_comm. reflexivity.
Qed.

End Ring.

(** ** Writing into the ring *)

Lemma slot_insert_eq (buf : list Z) i v :
  0 <= i < Z.of_nat (length buf) -> slot (<[Z.to_nat i := v]> buf) i = v.
Proof.
  intros Hi. unfold slot. rewrite list_lookup_insert_eq by lia. reflexivity.
Qed.

Lemma slot_insert_ne (buf : list Z) i j v :
  0 <= i -> 0 <= j -> i <> j -> slot (<[Z.to_nat i := v]> buf) j = slot buf j.
Proof.
  intros Hi Hj Hne. unfold slot. rewrite list_lookup_insert_ne by lia. reflexivity.
Qed.

Lemma slot_lookup (buf : list Z) i :
  0 <= i < Z.of_nat (length buf) -> buf !! Z.to_nat i = Some (slot buf i).
Proof.
  intros Hi. unfold slot.
  destruct (lookup_lt_is_Some_2 buf (Z.to_nat i)) as [x Hx]; [lia|].
  rewrite Hx. reflexivity.
Qed.

Lemma wrap_succ_range size x : 0 < size -> 0 <= (x + 1) mod size < size.
Proof. intros Hs. apply Z.mod_pos_bound. exact Hs. Qed.

Lemma wrap_succ_inj size x y :
  0 <= x < size -> 0 <= y < size ->
  (x + 1) mod size = (y + 1) mod size -> x = y.
Proof.
  intros Hx Hy. rewrite !wrap_succ by assumption.
  destruct (Z.eqb_spec (x + 1) size), (Z.eqb_spec (y + 1) size); lia.
Qed.

(** Walking one step further than what was pending reaches the slot the
    producer has just written, and nothing before it was touched. *)
Lemma walk_insert_last size (buf : list Z) head b n :
  Z.of_nat (length buf) = size -> 0 <= head < size ->
  forall tail, 0 <= tail < size -> Z.of_nat n = count size head tail ->
  walk size (<[Z.to_nat ((head + 1) mod size) := b]> buf) tail (S n)
  = walk size buf tail n ++ [b].
Proof.
  intros Hlen Hh. induction n as [|n IH]; intros tail Ht Hn.
  - symmetry in Hn. apply count_zero in Hn; [|assumption..]. subst tail.
    simpl. rewrite slot_insert_eq; [reflexivity|].
    rewrite Hlen. apply wrap_succ_range. lia.
  - assert (Hne : head <> tail).
    { intros ->. rewrite count_same in Hn by assumption. lia. }
    pose proof (wrap_succ_range size tail ltac:(lia)) as Hnt.
    pose proof (wrap_succ_range size head ltac:(lia)) as Hnh.
    change (walk size ?l tail (S (S n)))
      with (slot l ((tail + 1) mod size) :: walk size l ((tail + 1) mod size) (S n)).
    rewrite IH.
    + rewrite slot_insert_ne; [reflexivity|lia|lia|].
      intros Heq. apply Hne. eapply wrap_succ_inj; eassumption.
    + assumption.
    + rewrite (count_pop size head tail Hh Ht Hne) in Hn. lia.
Qed.

Lemma pending_push size (buf : list Z) head tail b :
  Z.of_nat (length buf) = size -> 0 <= head < size -> 0 <= tail < size ->
  (head + 1) mod size <> tail ->
  pending size (<[Z.to_nat ((head + 1) mod size) := b]> buf) ((head + 1) mod size) tail
  = pending size buf head tail ++ [b].
Proof.
  intros Hlen Hh Ht Hne. unfold pending.
  rewrite count_push by assumption.
  pose proof (count_bound size head tail Hh Ht) as Hc.
  rewrite Z2Nat.inj_add by lia. rewrite Nat.add_comm.
  apply walk_insert_last; try assumption. lia.
Qed.

Lemma ring_ok_push size buf head tail v :
  ring_ok size buf head tail ->
  ring_ok size (<[Z.to_nat ((head + 1) mod size) := u8 v]> buf) ((head + 1) mod size) tail.
Proof.
  intros [Hlen Hh Ht Hb]. split.
  - rewrite length_insert. exact Hlen.
  - apply wrap_succ_range. lia.
  - exact Ht.
  - apply Forall_insert; [exact Hb | apply u8_is_u8].
Qed.

Lemma ring_ok_pop size buf head tail :
  ring_ok size buf head tail -> ring_ok size buf head ((tail + 1) mod size).
Proof.
  intros [Hlen Hh Ht Hb]. split; try assumption. apply wrap_succ_range. lia.
Qed.

Lemma ring_ok_clear size buf head tail :
  ring_ok size buf head tail -> ring_ok size buf 0 0.
Proof. intros [Hlen Hh Ht Hb]. split; try assumption; lia. Qed.

Lemma ring_ok_slot size buf head tail i :
  ring_ok size buf head tail -> 0 <= i < size -> is_u8 (slot buf i).
Proof.
  intros [Hlen _ _ Hb] Hi.
  rewrite Forall_lookup in Hb. apply (Hb (Z.to_nat i)).
  apply slot_lookup. lia.
Qed.


(** ** The accessor functions, one equation each *)

Ltac drv_unfold :=
  unfold mbind, drv_bind, mret, drv_ret, load, store, rd, wr; simpl.

Lemma rx_size_pos : 1 <= TWI_RX_BUFFER_SIZE <= 256.
Proof using rx_bits_range. apply pow2_bits_bound. exact rx_bits_range. Qed.

Lemma tx_size_pos : 1 <= TWI_TX_BUFFER_SIZE <= 256.
Proof using tx_bits_range. apply pow2_bits_bound. exact tx_bits_range. Qed.

Lemma twiStuffRxBuf_eq s data :
  rx_ok s ->
  twiStuffRxBuf data s =
  Some (tt,
        let nh := (rxHead s + 1) mod TWI_RX_BUFFER_SIZE in
        if nh =? rxTail s then s
        else set_cell RxHead nh
               (set_array RxBuf (<[Z.to_nat nh := u8 data]> (rxBuf s)) s)).
Proof using rx_bits_range.
  intros [Hlen Hh Ht Hb]. pose proof rx_size_pos as Hs.
  unfold twiStuffRxBuf. drv_unfold.
  unfold TWI_RX_BUFFER_MASK, TWI_RX_BUFFER_SIZE in *.
  rewrite masked_succ by (try exact rx_bits_range; lia).
  pose proof (wrap_succ_range (2 ^ rx_bits) (rxHead s) ltac:(lia)) as Hn.
  destruct (Z.eqb_spec ((rxHead s + 1) mod 2 ^ rx_bits) (rxTail s)); [reflexivity|].
  replace (0 <=? (rxHead s + 1) mod 2 ^ rx_bits) with true by (symmetry; apply Z.leb_le; lia).
  replace ((rxHead s + 1) mod 2 ^ rx_bits <? Z.of_nat (length (rxBuf s))) with true
    by (symmetry; apply Z.ltb_lt; lia).
  simpl. rewrite (u8_small ((rxHead s + 1) mod 2 ^ rx_bits)) by (unfold is_u8; lia).
  reflexivity.
Qed.


Lemma twiTransmitByte_eq s data :
  tx_ok s ->
  twiTransmitByte data s =
  Some (tt,
        let nh := (txHead s + 1) mod TWI_TX_BUFFER_SIZE in
        if nh =? txTail s then s
        else set_cell TxHead nh
               (set_array TxBuf (<[Z.to_nat nh := u8 data]> (txBuf s)) s)).
Proof using tx_bits_range.
  intros [Hlen Hh Ht Hb]. pose proof tx_size_pos as Hs.
  unfold twiTransmitByte. drv_unfold.
  unfold TWI_TX_BUFFER_MASK, TWI_TX_BUFFER_SIZE in *.
  rewrite masked_succ by (try exact tx_bits_range; lia).
  pose proof (wrap_succ_range (2 ^ tx_bits) (txHead s) ltac:(lia)) as Hn.
  destruct (Z.eqb_spec ((txHead s + 1) mod 2 ^ tx_bits) (txTail s)); [reflexivity|].
  replace (0 <=? (txHead s + 1) mod 2 ^ tx_bits) with true by (symmetry; apply Z.leb_le; lia).
  replace ((txHead s + 1) mod 2 ^ tx_bits <? Z.of_nat (length (txBuf s))) with true
    by (symmetry; apply Z.ltb_lt; lia).
  simpl. rewrite (u8_small ((txHead s + 1) mod 2 ^ tx_bits)) by (unfold is_u8; lia).
  reflexivity.
Qed.

Lemma twiReceiveByte_empty s :
  rxHead s = rxTail s -> twiReceiveByte s = Some (0x88, s).
Proof.
  intros He. unfold twiReceiveByte. drv_unfold.
  rewrite He, Z.eqb_refl. reflexivity.
Qed.

Lemma twiReceiveByte_eq s :
  rx_ok s -> rxHead s <> rxTail s ->
  twiReceiveByte s =
  let nt := (rxTail s + 1) mod TWI_RX_BUFFER_SIZE in
  Some (slot (rxBuf s) nt, set_cell RxTail nt s).
Proof using rx_bits_range.
  intros [Hlen Hh Ht Hb] Hne. pose proof rx_size_pos as Hs.
  unfold twiReceiveByte. drv_unfold.
  destruct (Z.eqb_spec (rxHead s) (rxTail s)); [contradiction|].
  unfold TWI_RX_BUFFER_MASK, TWI_RX_BUFFER_SIZE in *.
  pose proof (wrap_succ_range (2 ^ rx_bits) (rxTail s) ltac:(lia)) as Hn.
  pose proof (masked_succ rx_bits (rxTail s) rx_bits_range ltac:(lia)) as Hm.
  unfold u8 in Hm |- *. rewrite Hm.
  replace (0 <=? (rxTail s + 1) mod 2 ^ rx_bits) with true by (symmetry; apply Z.leb_le; lia).
  rewrite slot_lookup by lia. reflexivity.
Qed.

Lemma twiDataInReceiveBuffer_eq s :
  twiDataInReceiveBuffer s = Some (negb (rxHead s =? rxTail s), s).
Proof. reflexivity. Qed.

Lemma twiDataInTransmitBuffer_eq s :
  twiDataInTransmitBuffer s = Some (negb (txHead s =? txTail s), s).
Proof. reflexivity. Qed.

Lemma twiClearOutput_eq s :
  twiClearOutput s = Some (tt, set_cell TxHead 0 (set_cell TxTail 0 s)).
Proof. reflexivity. Qed.

Lemma flushTwiBuffers_eq s :
  flushTwiBuffers s =
  Some (tt, set_cell TxHead 0 (set_cell TxTail 0
              (set_cell RxHead 0 (set_cell RxTail 0 s)))).
Proof. reflexivity. Qed.


(** ** The interrupt handler, branch by branch *)

Lemma TWI_vect_data s :
  TWSR s = TWI_SRX_ADR_DATA_ACK \/ TWSR s = TWI_SRX_GEN_DATA_ACK ->
  TWI_vect s = (twiStuffRxBuf (TWDR s) ;; store RegTWCR TWCR_rearm) s.
Proof.
  intros [H|H]; cbv beta iota delta [TWI_vect mbind drv_bind load get_cell];
    rewrite H; reflexivity.
Qed.

Lemma TWI_vect_transmit s :
  TWSR s = TWI_STX_ADR_ACK \/ TWSR s = TWI_STX_DATA_ACK ->
  tx_ok s ->
  TWI_vect s =
  Some (tt,
        if txHead s =? txTail s then
          set_cell RegTWCR 0xC5 (set_cell RegTWDR 0x88 s)
        else
          let nt := (txTail s + 1) mod TWI_TX_BUFFER_SIZE in
          set_cell RegTWCR 0xC5
            (set_cell RegTWDR (slot (txBuf s) nt) (set_cell TxTail nt s))).
Proof using tx_bits_range.
  intros Hsr Hok. pose proof tx_size_pos as Hs.
  assert (Hbranch : TWI_vect s =
    ((h ← load TxHead ;
      t ← load TxTail ;
      (if negb (h =? t) then
         t ← load TxTail ;
         store TxTail ((t + 1) .& TWI_TX_BUFFER_MASK) ;;
         i ← load TxTail ;
         b ← rd TxBuf i ;
         store RegTWDR b
       else store RegTWDR 0x88)) ;;
     store RegTWCR TWCR_rearm) s).
  { destruct Hsr as [H|H]; cbv beta iota delta [TWI_vect mbind drv_bind load get_cell];
      rewrite H; reflexivity. }
  rewrite Hbranch. clear Hbranch Hsr.
  pose proof (ring_ok_slot _ _ _ _ ((txTail s + 1) mod TWI_TX_BUFFER_SIZE) Hok) as Hu8.
  destruct Hok as [Hlen Hh Ht Hb].
  drv_unfold.
  destruct (Z.eqb_spec (txHead s) (txTail s)); simpl; [reflexivity|].
  unfold TWI_TX_BUFFER_MASK, TWI_TX_BUFFER_SIZE in *.
  pose proof (wrap_succ_range (2 ^ tx_bits) (txTail s) ltac:(lia)) as Hn.
  rewrite !(masked_succ tx_bits (txTail s)) by (try exact tx_bits_range; lia).
  replace (0 <=? (txTail s + 1) mod 2 ^ tx_bits) with true by (symmetry; apply Z.leb_le; lia).
  rewrite slot_lookup by lia. simpl.
  rewrite (u8_small (slot _ _)) by (apply Hu8; lia). reflexivity.
Qed.

Lemma TWI_vect_error s :
  TWSR s = TWI_SRX_ADR_DATA_NACK \/ TWSR s = TWI_SRX_GEN_DATA_NACK \/
  TWSR s = TWI_STX_DATA_ACK_LAST_BYTE \/ TWSR s = TWI_NO_STATE \/
  TWSR s = TWI_BUS_ERROR ->
  TWI_vect s = Some (tt, set_cell RegTWCR 0x90 s).
Proof.
  intros H. cbv beta iota delta [TWI_vect mbind drv_bind load get_cell].
  destruct H as [H|[H|[H|[H|H]]]]; rewrite H; reflexivity.
Qed.

(** Every status other than the two data-received and the two
    data-requested codes only writes the control register. *)
Lemma TWI_vect_control_only s :
  TWSR s <> TWI_SRX_ADR_DATA_ACK -> TWSR s <> TWI_SRX_GEN_DATA_ACK ->
  TWSR s <> TWI_STX_ADR_ACK -> TWSR s <> TWI_STX_DATA_ACK ->
  exists v, TWI_vect s = Some (tt, set_cell RegTWCR v s).
Proof.
  intros H1 H2 H3 H4. cbv beta iota delta [TWI_vect mbind drv_bind load get_cell].
  apply Z.eqb_neq in H1, H2, H3, H4. rewrite H1, H2, H3, H4. cbn [orb].
  repeat match goal with
         | |- context [if ?b then _ else _] => destruct b
         end; eexists; reflexivity.
Qed.


(** ** The operations on what the buffers hold *)

Lemma rx_pending_length s :
  rx_ok s ->
  Z.of_nat (length (rx_pending s)) = count TWI_RX_BUFFER_SIZE (rxHead s) (rxTail s).
Proof. intros [Hlen Hh Ht Hb]. apply pending_length; assumption. Qed.

Lemma tx_pending_length s :
  tx_ok s ->
  Z.of_nat (length (tx_pending s)) = count TWI_TX_BUFFER_SIZE (txHead s) (txTail s).
Proof. intros [Hlen Hh Ht Hb]. apply pending_length; assumption. Qed.

Lemma twiStuffRxBuf_full s data :
  rx_ok s -> Z.of_nat (length (rx_pending s)) = TWI_RX_BUFFER_SIZE - 1 ->
  twiStuffRxBuf data s = Some (tt, s).
Proof using rx_bits_range.
  intros Hok Hfull. rewrite twiStuffRxBuf_eq by assumption.
  rewrite rx_pending_length in Hfull by assumption.
  destruct Hok as [Hlen Hh Ht Hb].
  apply count_full in Hfull; [|assumption..].
  cbv zeta. rewrite Hfull, Z.eqb_refl. reflexivity.
Qed.

Lemma twiStuffRxBuf_room s data :
  rx_ok s -> Z.of_nat (length (rx_pending s)) < TWI_RX_BUFFER_SIZE - 1 ->
  exists s', twiStuffRxBuf data s = Some (tt, s') /\ rx_ok s' /\
             rx_pending s' = rx_pending s ++ [u8 data] /\
             rxTail s' = rxTail s /\ same_tx s s' /\ same_regs s s'.
Proof using rx_bits_range.
  clear tx_bits_range.
  intros Hok Hroom. rewrite twiStuffRxBuf_eq by assumption.
  rewrite rx_pending_length in Hroom by assumption.
  pose proof (ring_ok_push _ _ _ _ data Hok) as Hok'.
  destruct Hok as [Hlen Hh Ht Hb].
  assert (Hne : (rxHead s + 1) mod TWI_RX_BUFFER_SIZE <> rxTail s).
  { intros Heq. apply count_full in Heq; [lia|assumption..]. }
  cbv zeta. destruct (Z.eqb_spec ((rxHead s + 1) mod TWI_RX_BUFFER_SIZE) (rxTail s));
    [contradiction|].
  eexists. split; [reflexivity|].
  split; [exact Hok'|]. split.
  - unfold rx_pending. simpl. apply pending_push; assumption.
  - unfold same_tx, same_regs. simpl. tauto.
Qed.

Lemma twiReceiveByte_some s :
  rx_ok s -> rxHead s <> rxTail s ->
  exists b s', twiReceiveByte s = Some (b, s') /\ rx_ok s' /\
               rx_pending s = b :: rx_pending s' /\
               rxBuf s' = rxBuf s /\ rxHead s' = rxHead s /\
               same_tx s s' /\ same_regs s s'.
Proof using rx_bits_range.
  clear tx_bits_range.
  intros Hok Hne. rewrite twiReceiveByte_eq by assumption.
  pose proof (ring_ok_pop _ _ _ _ Hok) as Hok'.
  destruct Hok as [Hlen Hh Ht Hb].
  cbv zeta. eexists _, _. split; [reflexivity|].
  split; [exact Hok'|]. split.
  - unfold rx_pending. simpl. apply pending_pop; assumption.
  - unfold same_tx, same_regs. simpl. tauto.
Qed.

Lemma twiTransmitByte_full s data :
  tx_ok s -> Z.of_nat (length (tx_pending s)) = TWI_TX_BUFFER_SIZE - 1 ->
  twiTransmitByte data s = Some (tt, s).
Proof using tx_bits_range.
  intros Hok Hfull. rewrite twiTransmitByte_eq by assumption.
  rewrite tx_pending_length in Hfull by assumption.
  destruct Hok as [Hlen Hh Ht Hb].
  apply count_full in Hfull; [|assumption..].
  cbv zeta. rewrite Hfull, Z.eqb_refl. reflexivity.
Qed.

Lemma twiTransmitByte_room s data :
  tx_ok s -> Z.of_nat (length (tx_pending s)) < TWI_TX_BUFFER_SIZE - 1 ->
  exists s', twiTransmitByte data s = Some (tt, s') /\ tx_ok s' /\
             tx_pending s' = tx_pending s ++ [u8 data] /\
             txTail s' = txTail s /\ same_rx s s' /\ same_regs s s'.
Proof using tx_bits_range.
  clear rx_bits_range.
  intros Hok Hroom. rewrite twiTransmitByte_eq by assumption.
  rewrite tx_pending_length in Hroom by assumption.
  pose proof (ring_ok_push _ _ _ _ data Hok) as Hok'.
  destruct Hok as [Hlen Hh Ht Hb].
  assert (Hne : (txHead s + 1) mod TWI_TX_BUFFER_SIZE <> txTail s).
  { intros Heq. apply count_full in Heq; [lia|assumption..]. }
  cbv zeta. destruct (Z.eqb_spec ((txHead s + 1) mod TWI_TX_BUFFER_SIZE) (txTail s));
    [contradiction|].
  eexists. split; [reflexivity|].
  split; [exact Hok'|]. split.
  - unfold tx_pending. simpl. apply pending_push; assumption.
  - unfold same_rx, same_regs. simpl. tauto.
Qed.

(** The data-requested branch of the handler is the consumer of [txBuf]. *)
Lemma TWI_vect_transmit_some s :
  TWSR s = TWI_STX_ADR_ACK \/ TWSR s = TWI_STX_DATA_ACK ->
  tx_ok s -> txHead s <> txTail s ->
  exists b s', TWI_vect s = Some (tt, s') /\ tx_ok s' /\
               tx_pending s = b :: tx_pending s' /\ TWDR s' = b /\
               txBuf s' = txBuf s /\ txHead s' = txHead s /\
               TWCR s' = 0xC5 /\ same_rx s s'.
Proof using tx_bits_range.
  clear rx_bits_range.
  intros Hsr Hok Hne. rewrite TWI_vect_transmit by assumption.
  pose proof (ring_ok_pop _ _ _ _ Hok) as Hok'.
  destruct Hok as [Hlen Hh Ht Hb].
  destruct (Z.eqb_spec (txHead s) (txTail s)); [contradiction|].
  cbv zeta. eexists _, _. split; [reflexivity|].
  split; [exact Hok'|]. split.
  - unfold tx_pending. simpl. apply pending_pop; assumption.
  - unfold same_rx. simpl. tauto.
Qed.

Lemma TWI_vect_transmit_none s :
  TWSR s = TWI_STX_ADR_ACK \/ TWSR s = TWI_STX_DATA_ACK ->
  tx_ok s -> txHead s = txTail s ->
  exists s', TWI_vect s = Some (tt, s') /\ TWDR s' = 0x88 /\ TWCR s' = 0xC5 /\
             same_tx s s' /\ same_rx s s'.
Proof using tx_bits_range.
  clear rx_bits_range.
  intros Hsr Hok He. rewrite TWI_vect_transmit by assumption.
  rewrite He, Z.eqb_refl. eexists. split; [reflexivity|].
  unfold same_tx, same_rx. simpl. tauto.
Qed.


(** ** Runs of producer and consumer steps on the receive buffer *)

Lemma rx_ops_cons op rest s :
  rx_ops (op :: rest) s =
  match rx_op op s with
  | Some (out, s1) =>
      match rx_ops rest s1 with
      | Some (outs, s2) => Some (out ++ outs, s2)
      | None => None
      end
  | None => None
  end.
Proof.
  simpl. unfold mbind, drv_bind. destruct (rx_op op s) as [[out s1]|]; [|reflexivity].
  destruct (rx_ops rest s1) as [[outs s2]|]; reflexivity.
Qed.

Lemma rx_ops_app ops1 ops2 s :
  rx_ops (ops1 ++ ops2) s =
  match rx_ops ops1 s with
  | Some (out1, s1) =>
      match rx_ops ops2 s1 with
      | Some (out2, s2) => Some (out1 ++ out2, s2)
      | None => None
      end
  | None => None
  end.
Proof.
  revert s. induction ops1 as [|op ops1 IH]; intros s.
  - simpl. unfold mret, drv_ret. destruct (rx_ops ops2 s) as [[out2 s2]|]; reflexivity.
  - rewrite <- app_comm_cons, !rx_ops_cons.
    destruct (rx_op op s) as [[out s1]|]; [|reflexivity].
    rewrite IH. destruct (rx_ops ops1 s1) as [[out1 s2]|]; [|reflexivity].
    destruct (rx_ops ops2 s2) as [[out2 s3]|]; [|reflexivity].
    rewrite app_assoc. reflexivity.
Qed.

Lemma rx_op_push s b :
  rx_ok s -> is_u8 b ->
  Z.of_nat (length (rx_pending s)) < TWI_RX_BUFFER_SIZE - 1 ->
  exists s', rx_op (Push b) s = Some ([], s') /\ rx_ok s' /\
             rx_pending s' = rx_pending s ++ [b].
Proof using rx_bits_range.
  clear tx_bits_range.
  intros Hok Hb Hroom.
  destruct (twiStuffRxBuf_room s b Hok Hroom) as (s' & Hrun & Hok' & Hp & _).
  exists s'. simpl. unfold mbind, drv_bind. rewrite Hrun.
  rewrite u8_small in Hp by assumption. auto.
Qed.

Lemma rx_op_pop_empty s :
  rx_ok s -> rx_pending s = [] -> rx_op Pop s = Some ([], s).
Proof.
  intros [Hlen Hh Ht Hb] He. apply pending_nil_iff in He; [|assumption..].
  simpl. unfold mbind, drv_bind. rewrite twiDataInReceiveBuffer_eq.
  rewrite He, Z.eqb_refl. reflexivity.
Qed.

Lemma rx_op_pop_some s :
  rx_ok s -> rx_pending s <> [] ->
  exists b s', rx_op Pop s = Some ([b], s') /\ rx_ok s' /\
               rx_pending s = b :: rx_pending s'.
Proof using rx_bits_range.
  clear tx_bits_range.
  intros Hok Hne.
  assert (Hht : rxHead s <> rxTail s).
  { intros He. apply Hne. destruct Hok. apply pending_nil_iff; assumption. }
  destruct (twiReceiveByte_some s Hok Hht) as (b & s' & Hrun & Hok' & Hp & _).
  exists b, s'. simpl. unfold mbind, drv_bind. rewrite twiDataInReceiveBuffer_eq.
  destruct (Z.eqb_spec (rxHead s) (rxTail s)); [contradiction|].
  simpl. rewrite Hrun. auto.
Qed.

(** What has been read, followed by what is still in the buffer, is what
    was in the buffer followed by what has been pushed. *)
Lemma rx_ops_fifo ops :
  forall s, rx_ok s -> Forall is_u8 (pushed ops) ->
  fits TWI_RX_BUFFER_SIZE (Z.of_nat (length (rx_pending s))) ops = true ->
  exists out s', rx_ops ops s = Some (out, s') /\ rx_ok s' /\
                 out ++ rx_pending s' = rx_pending s ++ pushed ops.
Proof using rx_bits_range.
  clear tx_bits_range.
  induction ops as [|[b|] ops IH]; intros s Hok Hbytes Hfits.
  - exists [], s. simpl. rewrite app_nil_r. auto.
  - simpl in Hfits, Hbytes. apply andb_prop in Hfits as [Hroom Hfits].
    apply Z.leb_le in Hroom. apply Forall_cons in Hbytes as [Hb Hbytes].
    destruct (rx_op_push s b Hok Hb ltac:(lia)) as (s1 & Hrun & Hok1 & Hp1).
    destruct (IH s1 Hok1 Hbytes) as (out & s2 & Hrun2 & Hok2 & Hp2).
    { rewrite Hp1, length_app. simpl. rewrite Nat2Z.inj_add. exact Hfits. }
    exists out, s2. rewrite rx_ops_cons, Hrun, Hrun2. simpl.
    rewrite Hp2, Hp1, <- app_assoc. auto.
  - simpl in Hfits, Hbytes.
    destruct (rx_pending s) as [|b0 rest] eqn:Hpend.
    + pose proof (rx_op_pop_empty s Hok Hpend) as Hrun.
      destruct (IH s Hok Hbytes) as (out & s2 & Hrun2 & Hok2 & Hp2).
      { rewrite Hpend. exact Hfits. }
      exists out, s2. rewrite rx_ops_cons, Hrun, Hrun2. simpl.
      rewrite Hp2, Hpend. auto.
    + destruct (rx_op_pop_some s Hok) as (b & s1 & Hrun & Hok1 & Hp1).
      { rewrite Hpend. discriminate. }
      rewrite Hpend in Hp1. injection Hp1 as <- ->.
      destruct (IH s1 Hok1 Hbytes) as (out & s2 & Hrun2 & Hok2 & Hp2).
      { replace (Z.of_nat (length (rx_pending s1)))
          with (Z.max 0 (Z.of_nat (length (b0 :: rx_pending s1)) - 1))
          by (simpl length; lia).
        exact Hfits. }
      exists (b0 :: out), s2. rewrite rx_ops_cons, Hrun, Hrun2. simpl.
      rewrite Hp2. auto.
Qed.

(** Enough reads empty the buffer, returning what it held, oldest first. *)
Lemma rx_drain k :
  forall s, rx_ok s -> (length (rx_pending s) <= k)%nat ->
  exists s', rx_ops (replicate k Pop) s = Some (rx_pending s, s') /\
             rx_ok s' /\ rx_pending s' = [].
Proof using rx_bits_range.
  clear tx_bits_range.
  induction k as [|k IH]; intros s Hok Hk.
  - exists s. destruct (rx_pending s); simpl in *; [auto | lia].
  - change (replicate (S k) Pop) with (Pop :: replicate k Pop).
    rewrite rx_ops_cons.
    destruct (rx_pending s) as [|b0 rest] eqn:Hpend.
    + rewrite (rx_op_pop_empty s Hok Hpend).
      destruct (IH s Hok) as (s' & Hrun & Hok' & Hp'); [rewrite Hpend; simpl; lia|].
      exists s'. rewrite Hrun, Hpend. auto.
    + destruct (rx_op_pop_some s Hok) as (b & s1 & Hrun & Hok1 & Hp1).
      { rewrite Hpend. discriminate. }
      rewrite Hpend in Hp1. injection Hp1 as <- ->.
      destruct (IH s1 Hok1) as (s' & Hrun' & Hok' & Hp'); [simpl in Hk; lia|].
      exists s'. rewrite Hrun, Hrun'. auto.
Qed.


(** ** Frames *)

Lemma same_rx_ok s s' : same_rx s s' -> rx_ok s -> rx_ok s'.
Proof. intros (Hb & Hh & Ht). unfold rx_ok. rewrite Hb, Hh, Ht. auto. Qed.

Lemma same_tx_ok s s' : same_tx s s' -> tx_ok s -> tx_ok s'.
Proof. intros (Hb & Hh & Ht). unfold tx_ok. rewrite Hb, Hh, Ht. auto. Qed.

Lemma same_rx_pending s s' : same_rx s s' -> rx_pending s' = rx_pending s.
Proof. intros (Hb & Hh & Ht). unfold rx_pending. rewrite Hb, Hh, Ht. reflexivity. Qed.


(** ** Well-formedness is an invariant of every call *)

Lemma zero_initialized_wf s : zero_initialized s -> wf s.
Proof using rx_bits_range tx_bits_range.
  intros (Hrb & Hrh & Hrt & Htb & Hth & Htt).
  pose proof rx_size_pos. pose proof tx_size_pos.
  split; [unfold rx_ok; rewrite Hrb, Hrh, Hrt | unfold tx_ok; rewrite Htb, Hth, Htt];
    (split; [rewrite length_replicate; lia | lia | lia |]);
    apply Forall_replicate; unfold is_u8; lia.
Qed.

Lemma wf_in_bounds s : wf s -> in_bounds s.
Proof.
  clear rx_bits_range tx_bits_range.
  intros [[Hrl Hrh Hrt _] [Htl Hth Htt _]]. unfold in_bounds. tauto.
Qed.

Lemma twiStuffRxBuf_wf s data :
  wf s -> exists s', twiStuffRxBuf data s = Some (tt, s') /\ wf s'.
Proof using rx_bits_range.
  intros [Hrx Htx]. rewrite twiStuffRxBuf_eq by assumption. cbv zeta.
  destruct (_ =? _); eexists; (split; [reflexivity|]).
  - split; assumption.
  - split; [apply ring_ok_push; exact Hrx | exact Htx].
Qed.

Lemma twiTransmitByte_wf s data :
  wf s -> exists s', twiTransmitByte data s = Some (tt, s') /\ wf s'.
Proof using tx_bits_range.
  intros [Hrx Htx]. rewrite twiTransmitByte_eq by assumption. cbv zeta.
  destruct (_ =? _); eexists; (split; [reflexivity|]).
  - split; assumption.
  - split; [exact Hrx | apply ring_ok_push; exact Htx].
Qed.

Lemma twiReceiveByte_wf s :
  wf s -> exists b s', twiReceiveByte s = Some (b, s') /\ wf s'.
Proof using rx_bits_range.
  intros [Hrx Htx]. destruct (Z.eq_dec (rxHead s) (rxTail s)) as [He|Hne].
  - rewrite twiReceiveByte_empty by assumption. eexists _, _. split; [reflexivity|].
    split; assumption.
  - rewrite twiReceiveByte_eq by assumption. cbv zeta. eexists _, _.
    split; [reflexivity|]. split; [apply ring_ok_pop; exact Hrx | exact Htx].
Qed.

Lemma store_reg_wf c v s :
  c = RegTWAR \/ c = RegTWCR \/ c = RegTWDR \/ c = RegTWSR ->
  wf s -> wf (set_cell c v s).
Proof. intros [-> | [-> | [-> | ->]]] Hwf; exact Hwf. Qed.

Lemma TWI_vect_wf s : wf s -> exists s', TWI_vect s = Some (tt, s') /\ wf s'.
Proof using rx_bits_range tx_bits_range.
  intros Hwf.
  destruct (Z.eq_dec (TWSR s) TWI_SRX_ADR_DATA_ACK) as [H1|H1];
    [|destruct (Z.eq_dec (TWSR s) TWI_SRX_GEN_DATA_ACK) as [H2|H2]].
  1,2: rewrite TWI_vect_data by tauto;
       destruct (twiStuffRxBuf_wf s (TWDR s) Hwf) as (s1 & Hrun & Hwf1);
       unfold mbind, drv_bind; rewrite Hrun;
       eexists; split; [reflexivity | apply store_reg_wf; tauto].
  destruct (Z.eq_dec (TWSR s) TWI_STX_ADR_ACK) as [H3|H3];
    [|destruct (Z.eq_dec (TWSR s) TWI_STX_DATA_ACK) as [H4|H4]].
  1,2: rewrite TWI_vect_transmit by (tauto || apply Hwf);
       destruct Hwf as [Hrx Htx];
       destruct (_ =? _); eexists; (split; [reflexivity|]);
       split; try exact Hrx; try exact Htx;
       apply (ring_ok_pop _ _ _ _ Htx).
  destruct (TWI_vect_control_only s H1 H2 H3 H4) as (v & Hrun).
  rewrite Hrun. eexists; split; [reflexivity | apply store_reg_wf; tauto].
Qed.

Lemma exec_wf c s : wf s -> exists s', exec c s = Some (tt, s') /\ wf s'.
Proof using rx_bits_range tx_bits_range.
  intros Hwf. destruct c; simpl.
  - rewrite flushTwiBuffers_eq. eexists; split; [reflexivity|].
    destruct Hwf as [Hrx Htx].
    split; [apply (ring_ok_clear _ _ _ _ Hrx) | apply (ring_ok_clear _ _ _ _ Htx)].
  - eexists; split; [reflexivity | exact Hwf].
  - eexists; split; [reflexivity | exact Hwf].
  - apply twiTransmitByte_wf; exact Hwf.
  - destruct (twiReceiveByte_wf s Hwf) as (b & s' & Hrun & Hwf').
    unfold mbind, drv_bind. rewrite Hrun. eauto.
  - eexists; split; [reflexivity | exact Hwf].
  - eexists; split; [reflexivity | exact Hwf].
  - rewrite twiClearOutput_eq. eexists; split; [reflexivity|].
    destruct Hwf as [Hrx Htx]. split; [exact Hrx | apply (ring_ok_clear _ _ _ _ Htx)].
  - apply twiStuffRxBuf_wf; exact Hwf.
  - unfold bus_event_data, mbind, drv_bind, store.
    apply TWI_vect_wf. apply store_reg_wf; [tauto|]. apply store_reg_wf; [tauto|].
    exact Hwf.
Qed.

Lemma run_wf cs : forall s, wf s -> exists s', run cs s = Some (tt, s') /\ wf s'.
Proof using rx_bits_range tx_bits_range.
  induction cs as [|c cs IH]; intros s Hwf.
  - exists s. auto.
  - destruct (exec_wf c s Hwf) as (s1 & Hrun & Hwf1).
    destruct (IH s1 Hwf1) as (s2 & Hrun2 & Hwf2).
    exists s2. simpl. unfold mbind, drv_bind. rewrite Hrun. auto.
Qed.


(** ** One byte through an empty buffer *)

Lemma size_two bits : 1 <= bits -> 2 <= 2 ^ bits.
Proof. intros H. change 2 with (2 ^ 1) at 1. apply Z.pow_le_mono_r; lia. Qed.

Lemma twiStuffRxBuf_on_empty s b :
  rx_ok s -> 1 <= rx_bits -> rxHead s = rxTail s ->
  exists s', twiStuffRxBuf b s = Some (tt, s') /\ rx_ok s' /\
             rx_pending s' = [u8 b] /\ same_tx s s' /\ same_regs s s'.
Proof using rx_bits_range.
  clear tx_bits_range.
  intros Hok Hbits He.
  assert (Hnil : rx_pending s = []).
  { destruct Hok. apply pending_nil_iff; assumption. }
  destruct (twiStuffRxBuf_room s b Hok) as (s' & Hrun & Hok' & Hp & _ & Htx & Hregs).
  { rewrite Hnil. simpl. pose proof (size_two rx_bits Hbits).
    unfold TWI_RX_BUFFER_SIZE. lia. }
  exists s'. rewrite Hnil in Hp. auto.
Qed.

Lemma twiTransmitByte_on_empty s b :
  tx_ok s -> 1 <= tx_bits -> txHead s = txTail s ->
  exists s', twiTransmitByte b s = Some (tt, s') /\ tx_ok s' /\
             tx_pending s' = [u8 b] /\ same_rx s s' /\ same_regs s s'.
Proof using tx_bits_range.
  clear rx_bits_range.
  intros Hok Hbits He.
  assert (Hnil : tx_pending s = []).
  { destruct Hok. apply pending_nil_iff; assumption. }
  destruct (twiTransmitByte_room s b Hok) as (s' & Hrun & Hok' & Hp & _ & Hrx & Hregs).
  { rewrite Hnil. simpl. pose proof (size_two tx_bits Hbits).
    unfold TWI_TX_BUFFER_SIZE. lia. }
  exists s'. rewrite Hnil in Hp. auto.
Qed.

Lemma twiReceiveByte_single s b :
  rx_ok s -> rx_pending s = [b] ->
  twiDataInReceiveBuffer s = Some (true, s) /\
  exists s', twiReceiveByte s = Some (b, s') /\ rx_ok s' /\ rx_pending s' = [] /\
             same_tx s s' /\ same_regs s s'.
Proof using rx_bits_range.
  clear tx_bits_range.
  intros Hok Hp.
  assert (Hne : rxHead s <> rxTail s).
  { intros He. destruct Hok as [Hlen Hh Ht Hb].
    apply (pending_nil_iff _ (rxBuf s) _ _ Hh Ht) in He.
    unfold rx_pending in Hp. congruence. }
  split.
  - rewrite twiDataInReceiveBuffer_eq.
    destruct (Z.eqb_spec (rxHead s) (rxTail s)); [contradiction | reflexivity].
  - destruct (twiReceiveByte_some s Hok Hne)
      as (b' & s' & Hrun & Hok' & Hp' & _ & _ & Htx & Hregs).
    rewrite Hp in Hp'. injection Hp' as <- Hnil.
    exists s'. auto.
Qed.

Lemma TWI_vect_transmit_single s b :
  tx_ok s -> tx_pending s = [b] ->
  TWSR s = TWI_STX_ADR_ACK \/ TWSR s = TWI_STX_DATA_ACK ->
  exists s', TWI_vect s = Some (tt, s') /\ TWDR s' = b /\ tx_pending s' = [].
Proof using tx_bits_range.
  clear rx_bits_range.
  intros Hok Hp Hsr.
  assert (Hne : txHead s <> txTail s).
  { intros He. destruct Hok as [Hlen Hh Ht Hb].
    apply (pending_nil_iff _ (txBuf s) _ _ Hh Ht) in He.
    unfold tx_pending in Hp. congruence. }
  destruct (TWI_vect_transmit_some s Hsr Hok Hne) as (b' & s' & Hrun & _ & Hp' & Hd & _).
  rewrite Hp in Hp'. injection Hp' as <- Hnil.
  exists s'. auto.
Qed.

(** ** The properties of the driver *)

(** C1. First in, first out: take any run of producer steps
    ([twiStuffRxBuf]) and consumer steps ([twiReceiveByte], read when
    [twiDataInReceiveBuffer] says so) in which no push finds capacity - 1
    bytes already pending, and let at least as many reads follow as bytes
    are outstanding.  The reads return the bytes that were pending at the
    start followed by the pushed bytes, each exactly once and in the order
    of pushing; the buffer is then empty and a further read yields only the
    sentinel. *)
Theorem fifo_order (s : twi) (ops : list fifo_op) (k : nat) :
  rx_ok s ->
  Forall is_u8 (pushed ops) ->
  fits TWI_RX_BUFFER_SIZE (Z.of_nat (length (rx_pending s))) ops = true ->
  (length (rx_pending s) + length (pushed ops) <= k)%nat ->
  exists s',
    rx_ops (ops ++ replicate k Pop) s = Some (rx_pending s ++ pushed ops, s') /\
    rx_pending s' = [] /\
    twiReceiveByte s' = Some (0x88, s').
Proof using rx_bits_range.
  clear tx_bits_range.
  intros Hok Hbytes Hfits Hk.
  destruct (rx_ops_fifo ops s Hok Hbytes Hfits) as (out & s1 & Hrun & Hok1 & Hout).
  destruct (rx_drain k s1 Hok1) as (s2 & Hrun2 & Hok2 & Hp2).
  { apply (f_equal (@length Z)) in Hout. rewrite !length_app in Hout. lia. }
  exists s2. rewrite rx_ops_app, Hrun, Hrun2, Hout.
  split; [reflexivity|]. split; [exact Hp2|].
  apply twiReceiveByte_empty. destruct Hok2 as [Hlen Hh Ht Hb].
  apply (pending_nil_iff _ (rxBuf s2) _ _ Hh Ht). exact Hp2.
Qed.

(** C2 (as amended). A push into a buffer that already holds capacity - 1
    bytes, by [twiTransmitByte] or by [twiStuffRxBuf], leaves the whole
    driver state as it was: contents, head and tail of the buffer, hence the
    oldest byte too.  The functions are [void]: the run yields the unit
    value and the same state, so the dropped byte is signalled nowhere. *)
Theorem push_on_full_buffer (s : twi) (data : Z) :
  wf s ->
  (Z.of_nat (length (tx_pending s)) = TWI_TX_BUFFER_SIZE - 1 ->
   twiTransmitByte data s = Some (tt, s)) /\
  (Z.of_nat (length (rx_pending s)) = TWI_RX_BUFFER_SIZE - 1 ->
   twiStuffRxBuf data s = Some (tt, s)).
Proof using rx_bits_range tx_bits_range.
  intros [Hrx Htx]. split; intros Hfull.
  - apply twiTransmitByte_full; assumption.
  - apply twiStuffRxBuf_full; assumption.
Qed.

(** C3. On an empty receive buffer ([rxHead == rxTail]) [twiReceiveByte]
    returns 0x88 and the state, [rxTail] included, is unchanged. *)
Theorem receive_on_empty (s : twi) :
  rxHead s = rxTail s -> twiReceiveByte s = Some (0x88, s).
Proof. apply twiReceiveByte_empty. Qed.

(** C4. On the status codes "own SLA+R received, ACK returned" and "data
    byte transmitted, ACK received" the handler, when the transmit buffer
    has data, removes exactly its oldest byte and loads it into TWDR; when
    the buffer is empty it loads 0x88 and leaves the buffer alone. *)
Theorem data_requested_event (s : twi) :
  tx_ok s ->
  TWSR s = TWI_STX_ADR_ACK \/ TWSR s = TWI_STX_DATA_ACK ->
  exists s',
    TWI_vect s = Some (tt, s') /\ same_rx s s' /\
    (result twiDataInTransmitBuffer s = Some true ->
     exists b, tx_pending s = b :: tx_pending s' /\ TWDR s' = b /\
               txBuf s' = txBuf s /\ txHead s' = txHead s) /\
    (result twiDataInTransmitBuffer s = Some false ->
     tx_pending s = [] /\ TWDR s' = 0x88 /\ same_tx s s').
Proof using tx_bits_range.
  clear rx_bits_range.
  intros Hok Hsr. unfold result. rewrite twiDataInTransmitBuffer_eq. simpl.
  destruct (Z.eqb_spec (txHead s) (txTail s)) as [He|Hne]; simpl.
  - destruct (TWI_vect_transmit_none s Hsr Hok He) as (s' & Hrun & Hd & _ & Htx & Hrx).
    exists s'. split; [exact Hrun|]. split; [exact Hrx|].
    split; [discriminate|]. intros _. split; [|tauto].
    destruct Hok. apply pending_nil_iff; assumption.
  - destruct (TWI_vect_transmit_some s Hsr Hok Hne)
      as (b & s' & Hrun & _ & Hp & Hd & Hb & Hh & _ & Hrx).
    exists s'. split; [exact Hrun|]. split; [exact Hrx|].
    split; [|discriminate]. intros _. exists b. tauto.
Qed.

(** C5. On a status code of the error class the handler writes TWCR with
    exactly the TWSTO and TWINT bits, and both buffers keep their contents,
    heads and tails. *)
Theorem error_event_forces_stop (s : twi) :
  TWSR s = TWI_SRX_ADR_DATA_NACK \/ TWSR s = TWI_SRX_GEN_DATA_NACK \/
  TWSR s = TWI_STX_DATA_ACK_LAST_BYTE \/ TWSR s = TWI_NO_STATE \/
  TWSR s = TWI_BUS_ERROR ->
  exists s',
    TWI_vect s = Some (tt, s') /\
    TWCR s' = (1 .<< TWSTO) .| (1 .<< TWINT) /\
    (forall i, Z.testbit (TWCR s') i = true <-> i = TWSTO \/ i = TWINT) /\
    same_rx s s' /\ same_tx s s'.
Proof.
  clear rx_bits_range tx_bits_range.
  intros Hsr. rewrite TWI_vect_error by assumption.
  eexists. split; [reflexivity|]. split; [reflexivity|].
  split; [|unfold same_rx, same_tx; simpl; tauto].
  intros i. simpl TWCR. unfold TWSTO, TWINT.
  destruct (Z_lt_le_dec i 0) as [Hneg|Hpos].
  - rewrite Z.testbit_neg_r by assumption. split; [discriminate | lia].
  - destruct (Z_lt_le_dec i 8) as [Hlo|Hhi].
    + assert (Hi : i = 0 \/ i = 1 \/ i = 2 \/ i = 3 \/ i = 4 \/ i = 5 \/ i = 6 \/ i = 7) by lia.
      destruct Hi as [->|[->|[->|[->|[->|[->|[->| ->]]]]]]]; simpl;
        split; intros H; try discriminate; try reflexivity; lia.
    + rewrite Z.bits_above_log2; [split; [discriminate | lia] | lia |].
      change (Z.log2 144) with 7. lia.
Qed.


(** C6. A "data received, ACK returned" event carrying the byte [b] and
    arriving while the receive buffer is empty: after the handler has run,
    [twiDataInReceiveBuffer] answers true and [twiReceiveByte] returns [b].
    The buffer must be able to hold a byte, so its capacity is at least
    two. *)
Theorem data_event_then_receive (s : twi) (status b : Z) :
  rx_ok s -> 1 <= rx_bits ->
  status = TWI_SRX_ADR_DATA_ACK \/ status = TWI_SRX_GEN_DATA_ACK ->
  is_u8 b ->
  rxHead s = rxTail s ->
  result (bus_event_data status b ;;
          avail ← twiDataInReceiveBuffer ;
          r ← twiReceiveByte ;
          mret (avail, r)) s
  = Some (true, b).
Proof using rx_bits_range.
  clear tx_bits_range.
  intros Hok Hbits Hst Hb He.
  set (s1 := set_cell RegTWDR (u8 b) (set_cell RegTWSR (u8 status) s)).
  assert (Hsr : TWSR s1 = TWI_SRX_ADR_DATA_ACK \/ TWSR s1 = TWI_SRX_GEN_DATA_ACK).
  { destruct Hst as [-> | ->]; [left | right]; reflexivity. }
  assert (Hev : bus_event_data status b s = TWI_vect s1) by reflexivity.
  destruct (twiStuffRxBuf_on_empty s1 (TWDR s1) Hok Hbits He)
    as (s2 & Hrun2 & Hok2 & Hp2 & _).
  simpl TWDR in Hp2. rewrite !u8_small in Hp2 by (try apply u8_is_u8; exact Hb).
  set (s3 := set_cell RegTWCR (u8 TWCR_rearm) s2).
  destruct (twiReceiveByte_single s3 b Hok2 Hp2) as (Havail & s4 & Hrun4 & _).
  unfold result, mbind, drv_bind.
  rewrite Hev, (TWI_vect_data s1 Hsr).
  unfold mbind, drv_bind. rewrite Hrun2.
  change (store RegTWCR TWCR_rearm s2) with (Some (tt, s3)).
  cbv beta iota. rewrite Havail, Hrun4. reflexivity.
Qed.


(** C7. Whatever the indices were, after [twiClearOutput] the transmit
    buffer reports no data, and after [flushTwiBuffers] neither buffer
    does; one byte pushed then and popped once ([twiStuffRxBuf] and
    [twiReceiveByte] on the receive side, [twiTransmitByte] and a
    data-requested bus event on the transmit side) comes back as pushed.
    The buffers must be able to hold a byte: capacity at least two. *)
Theorem clear_then_push_pop (s : twi) (status b : Z) :
  arrays_ok s -> 1 <= rx_bits -> 1 <= tx_bits ->
  status = TWI_STX_ADR_ACK \/ status = TWI_STX_DATA_ACK ->
  is_u8 b ->
  result (twiClearOutput ;;
          pend ← twiDataInTransmitBuffer ;
          twiTransmitByte b ;;
          bus_event status ;;
          sent ← load RegTWDR ;
          mret (pend, sent)) s
  = Some (false, b)
  /\
  result (flushTwiBuffers ;;
          avail ← twiDataInReceiveBuffer ;
          pend ← twiDataInTransmitBuffer ;
          twiStuffRxBuf b ;;
          got ← twiReceiveByte ;
          twiTransmitByte b ;;
          bus_event status ;;
          sent ← load RegTWDR ;
          mret (avail, pend, got, sent)) s
  = Some (false, false, b, b).
Proof using rx_bits_range tx_bits_range.
  intros (Hrl & Hrb & Htl & Htb) Hrbits Htbits Hst Hb.
  pose proof rx_size_pos as Hrs. pose proof tx_size_pos as Hts.
  assert (Hsr : forall s0, TWSR (set_cell RegTWSR (u8 status) s0) = TWI_STX_ADR_ACK \/
                           TWSR (set_cell RegTWSR (u8 status) s0) = TWI_STX_DATA_ACK).
  { intros s0. destruct Hst as [-> | ->]; [left | right]; reflexivity. }
  split.
  - set (s1 := set_cell TxHead 0 (set_cell TxTail 0 s)).
    assert (Hok1 : tx_ok s1) by (split; simpl; (assumption || lia)).
    destruct (twiTransmitByte_on_empty s1 b Hok1 Htbits eq_refl)
      as (s2 & Hrun2 & Hok2 & Hp2 & _).
    rewrite u8_small in Hp2 by exact Hb.
    destruct (TWI_vect_transmit_single (set_cell RegTWSR (u8 status) s2) b Hok2 Hp2 (Hsr s2))
      as (s3 & Hrun3 & Hd3 & _).
    unfold result, mbind, drv_bind. rewrite twiClearOutput_eq. fold s1.
    rewrite twiDataInTransmitBuffer_eq, Hrun2.
    unfold bus_event, mbind, drv_bind, store. rewrite Hrun3.
    unfold load. simpl. rewrite Hd3. reflexivity.
  - set (s1 := set_cell TxHead 0 (set_cell TxTail 0 (set_cell RxHead 0 (set_cell RxTail 0 s)))).
    assert (Hrx1 : rx_ok s1) by (split; simpl; (assumption || lia)).
    assert (Htx1 : tx_ok s1) by (split; simpl; (assumption || lia)).
    destruct (twiStuffRxBuf_on_empty s1 b Hrx1 Hrbits eq_refl)
      as (s2 & Hrun2 & Hrx2 & Hp2 & Hsame2 & _).
    rewrite u8_small in Hp2 by exact Hb.
    destruct (twiReceiveByte_single s2 b Hrx2 Hp2)
      as (_ & s3 & Hrun3 & _ & _ & Hsame3 & _).
    assert (Htx3 : tx_ok s3).
    { apply (same_tx_ok s2 s3 Hsame3). apply (same_tx_ok s1 s2 Hsame2). exact Htx1. }
    assert (He3 : txHead s3 = txTail s3).
    { destruct Hsame2 as (_ & Hh2 & Ht2). destruct Hsame3 as (_ & Hh3 & Ht3).
      rewrite Hh3, Ht3, Hh2, Ht2. reflexivity. }
    destruct (twiTransmitByte_on_empty s3 b Htx3 Htbits He3)
      as (s4 & Hrun4 & Hok4 & Hp4 & _).
    rewrite u8_small in Hp4 by exact Hb.
    destruct (TWI_vect_transmit_single (set_cell RegTWSR (u8 status) s4) b Hok4 Hp4 (Hsr s4))
      as (s5 & Hrun5 & Hd5 & _).
    unfold result, mbind, drv_bind. rewrite flushTwiBuffers_eq. fold s1.
    rewrite twiDataInReceiveBuffer_eq, twiDataInTransmitBuffer_eq, Hrun2, Hrun3, Hrun4.
    unfold bus_event, mbind, drv_bind, store. rewrite Hrun5.
    unfold load. simpl. rewrite Hd5. reflexivity.
Qed.

(** C8. For a 7-bit address [a], [twiSlaveInit a] writes TWAR with [a] in
    bits 7..1, and TWCR with TWEN set and TWIE and TWEA clear; the buffers
    are not touched.  [twiSlaveEnable] is what sets TWIE and TWEA. *)
Theorem init_leaves_disabled (s : twi) (a : Z) :
  0 <= a < 128 ->
  exists s',
    twiSlaveInit a s = Some (tt, s') /\
    is_u8 (TWAR s') /\ Z.shiftr (TWAR s') 1 = a /\
    Z.testbit (TWCR s') TWEN = true /\
    Z.testbit (TWCR s') TWIE = false /\
    Z.testbit (TWCR s') TWEA = false /\
    same_rx s s' /\ same_tx s s' /\
    exists s'',
      twiSlaveEnable s' = Some (tt, s'') /\
      Z.testbit (TWCR s'') TWEN = true /\
      Z.testbit (TWCR s'') TWIE = true /\
      Z.testbit (TWCR s'') TWEA = true /\
      TWAR s'' = TWAR s'.
Proof.
  clear rx_bits_range tx_bits_range.
  intros Ha. eexists. split; [reflexivity|].
  assert (Htwar : u8 ((a .<< 1) .| 0) = 2 * a).
  { rewrite Z.lor_0_r, Z.shiftl_mul_pow2 by lia. change (2 ^ 1) with 2.
    rewrite u8_small by (unfold is_u8; lia). lia. }
  simpl TWAR. simpl TWCR. rewrite Htwar.
  split; [unfold is_u8; lia|].
  split. { rewrite Z.shiftr_div_pow2 by lia. change (2 ^ 1) with 2.
           rewrite Z.mul_comm. apply Z.div_mul. lia. }
  repeat (split; [reflexivity|]).
  split; [unfold same_rx; simpl; tauto|].
  split; [unfold same_tx; simpl; tauto|].
  eexists. split; [reflexivity|]. simpl TWAR. simpl TWCR. auto.
Qed.

(** C9. Starting from zero-initialised statics, no sequence of calls of the
    driver's functions and of bus events (any status code, any data byte)
    ever reads or writes [rxBuf] or [txBuf] outside the array: the run does
    not fail, and the four indices end strictly below the capacity of
    their buffer. *)
Theorem indices_stay_in_bounds (s0 : twi) (cs : list call) :
  zero_initialized s0 ->
  exists s, run cs s0 = Some (tt, s) /\ in_bounds s.
Proof using rx_bits_range tx_bits_range.
  intros Hinit.
  destruct (run_wf cs s0 (zero_initialized_wf s0 Hinit)) as (s & Hrun & Hwf).
  exists s. split; [exact Hrun | apply wf_in_bounds; exact Hwf].
Qed.

(** C10. Whatever the address, [twiSlaveInit] writes TWAR with bit 0, the
    general-call enable, clear; yet the handler does have branches for the
    general-call status codes: on 0x70 it re-arms, on 0x90 it stores the
    data register into the receive buffer. *)
Theorem init_disables_general_call (s : twi) (a d : Z) :
  (exists s', twiSlaveInit a s = Some (tt, s') /\ Z.testbit (TWAR s') 0 = false) /\
  bus_event TWI_SRX_GEN_ACK s
  = (store RegTWSR TWI_SRX_GEN_ACK ;; store RegTWCR TWCR_rearm) s /\
  bus_event_data TWI_SRX_GEN_DATA_ACK d s
  = (store RegTWSR TWI_SRX_GEN_DATA_ACK ;; store RegTWDR d ;;
     twiStuffRxBuf (u8 d) ;; store RegTWCR TWCR_rearm) s.
Proof.
  split; [|split].
  - eexists. split; [reflexivity|]. simpl TWAR. unfold u8.
    change 256 with (2 ^ 8). rewrite Z.mod_pow2_bits_low by lia.
    rewrite Z.lor_spec, Z.shiftl_spec_low by lia. reflexivity.
  - reflexivity.
  - unfold bus_event_data, mbind, drv_bind, store.
    rewrite TWI_vect_data by (right; reflexivity). reflexivity.
Qed.

(** ** Further properties: bursts, overflow, and what is left alone *)

Lemma same_rx_refl s : same_rx s s.
Proof. unfold same_rx. auto. Qed.

Lemma same_tx_refl s : same_tx s s.
Proof. unfold same_tx. auto. Qed.

Lemma same_regs_refl s : same_regs s s.
Proof. unfold same_regs. auto. Qed.

Lemma same_rx_trans s1 s2 s3 : same_rx s1 s2 -> same_rx s2 s3 -> same_rx s1 s3.
Proof. unfold same_rx. intros (A & B & C) (D & E & F). rewrite D, E, F. auto. Qed.

Lemma same_tx_trans s1 s2 s3 : same_tx s1 s2 -> same_tx s2 s3 -> same_tx s1 s3.
Proof. unfold same_tx. intros (A & B & C) (D & E & F). rewrite D, E, F. auto. Qed.

Lemma same_regs_trans s1 s2 s3 : same_regs s1 s2 -> same_regs s2 s3 -> same_regs s1 s3.
Proof.
  unfold same_regs. intros (A & B & C & D) (E & F & G & H). rewrite E, F, G, H. auto.
Qed.

Lemma rx_pending_bound s :
  rx_ok s -> Z.of_nat (length (rx_pending s)) <= TWI_RX_BUFFER_SIZE - 1.
Proof.
  intros Hok. rewrite rx_pending_length by assumption.
  destruct Hok as [Hlen Hh Ht Hb]. apply count_bound; assumption.
Qed.

Lemma tx_pending_bound s :
  tx_ok s -> Z.of_nat (length (tx_pending s)) <= TWI_TX_BUFFER_SIZE - 1.
Proof.
  intros Hok. rewrite tx_pending_length by assumption.
  destruct Hok as [Hlen Hh Ht Hb]. apply count_bound; assumption.
Qed.

Lemma transmit_all_spec bs :
  forall s, tx_ok s -> Forall is_u8 bs ->
  exists s', transmit_all bs s = Some (tt, s') /\ tx_ok s' /\
             tx_pending s' = tx_pending s ++ take (tx_room s) bs /\
             txTail s' = txTail s /\ same_rx s s' /\ same_regs s s'.
Proof using tx_bits_range.
  clear rx_bits_range.
  induction bs as [|b bs IH]; intros s Hok Hbytes.
  - exists s. rewrite take_nil, app_nil_r.
    split; [reflexivity|]. auto using same_rx_refl, same_regs_refl.
  - apply Forall_cons in Hbytes as [Hb Hbytes].
    pose proof (tx_pending_bound s Hok) as Hbound.
    simpl. unfold mbind, drv_bind.
    destruct (Z_lt_le_dec (Z.of_nat (length (tx_pending s))) (TWI_TX_BUFFER_SIZE - 1))
      as [Hroom|Hfull].
    + destruct (twiTransmitByte_room s b Hok Hroom)
        as (s1 & Hrun & Hok1 & Hp1 & Ht1 & Hrx1 & Hregs1).
      rewrite u8_small in Hp1 by exact Hb.
      destruct (IH s1 Hok1 Hbytes) as (s2 & Hrun2 & Hok2 & Hp2 & Ht2 & Hrx2 & Hregs2).
      exists s2. rewrite Hrun. split; [exact Hrun2|]. split; [exact Hok2|].
      split.
      * rewrite Hp2, Hp1, <- app_assoc. f_equal.
        assert (Hr : tx_room s = S (tx_room s1)).
        { unfold tx_room. rewrite Hp1, length_app. simpl. lia. }
        rewrite Hr. reflexivity.
      * split; [congruence|].
        split; [eapply same_rx_trans | eapply same_regs_trans]; eassumption.
    + rewrite (twiTransmitByte_full s b Hok) by lia.
      destruct (IH s Hok Hbytes) as (s2 & Hrun2 & Hok2 & Hp2 & Hrest).
      exists s2. split; [exact Hrun2|]. split; [exact Hok2|].
      split; [|exact Hrest].
      assert (Hr : tx_room s = O) by (unfold tx_room; lia).
      rewrite Hr in Hp2 |- *. exact Hp2.
Qed.

Lemma stuff_all_spec bs :
  forall s, rx_ok s -> Forall is_u8 bs ->
  exists s', stuff_all bs s = Some (tt, s') /\ rx_ok s' /\
             rx_pending s' = rx_pending s ++ take (rx_room s) bs /\
             rxTail s' = rxTail s /\ same_tx s s' /\ same_regs s s'.
Proof using rx_bits_range.
  clear tx_bits_range.
  induction bs as [|b bs IH]; intros s Hok Hbytes.
  - exists s. rewrite take_nil, app_nil_r.
    split; [reflexivity|]. auto using same_tx_refl, same_regs_refl.
  - apply Forall_cons in Hbytes as [Hb Hbytes].
    pose proof (rx_pending_bound s Hok) as Hbound.
    simpl. unfold mbind, drv_bind.
    destruct (Z_lt_le_dec (Z.of_nat (length (rx_pending s))) (TWI_RX_BUFFER_SIZE - 1))
      as [Hroom|Hfull].
    + destruct (twiStuffRxBuf_room s b Hok Hroom)
        as (s1 & Hrun & Hok1 & Hp1 & Ht1 & Htx1 & Hregs1).
      rewrite u8_small in Hp1 by exact Hb.
      destruct (IH s1 Hok1 Hbytes) as (s2 & Hrun2 & Hok2 & Hp2 & Ht2 & Htx2 & Hregs2).
      exists s2. rewrite Hrun. split; [exact Hrun2|]. split; [exact Hok2|].
      split.
      * rewrite Hp2, Hp1, <- app_assoc. f_equal.
        assert (Hr : rx_room s = S (rx_room s1)).
        { unfold rx_room. rewrite Hp1, length_app. simpl. lia. }
        rewrite Hr. reflexivity.
      * split; [congruence|].
        split; [eapply same_tx_trans | eapply same_regs_trans]; eassumption.
    + rewrite (twiStuffRxBuf_full s b Hok) by lia.
      destruct (IH s Hok Hbytes) as (s2 & Hrun2 & Hok2 & Hp2 & Hrest).
      exists s2. split; [exact Hrun2|]. split; [exact Hok2|].
      split; [|exact Hrest].
      assert (Hr : rx_room s = O) by (unfold rx_room; lia).
      rewrite Hr in Hp2 |- *. exact Hp2.
Qed.

(** One data-received event: the byte is appended, or dropped when the
    buffer is full; the handler acknowledges either way. *)
Lemma TWI_vect_data_spec s :
  TWSR s = TWI_SRX_ADR_DATA_ACK \/ TWSR s = TWI_SRX_GEN_DATA_ACK ->
  rx_ok s -> is_u8 (TWDR s) ->
  exists s', TWI_vect s = Some (tt, s') /\ rx_ok s' /\
             rxTail s' = rxTail s /\ same_tx s s' /\
             TWCR s' = 0xC5 /\ TWAR s' = TWAR s /\ TWDR s' = TWDR s /\
             TWSR s' = TWSR s /\
             ((Z.of_nat (length (rx_pending s)) < TWI_RX_BUFFER_SIZE - 1 /\
               rx_pending s' = rx_pending s ++ [TWDR s]) \/
              (Z.of_nat (length (rx_pending s)) = TWI_RX_BUFFER_SIZE - 1 /\
               same_rx s s')).
Proof using rx_bits_range.
  clear tx_bits_range.
  intros Hsr Hok Hd. rewrite TWI_vect_data by assumption.
  pose proof (rx_pending_bound s Hok) as Hbound.
  unfold mbind, drv_bind.
  destruct (Z_lt_le_dec (Z.of_nat (length (rx_pending s))) (TWI_RX_BUFFER_SIZE - 1))
    as [Hroom|Hfull].
  - destruct (twiStuffRxBuf_room s (TWDR s) Hok Hroom)
      as (s1 & Hrun & Hok1 & Hp1 & Ht1 & Htx1 & (Ha & Hc & Hdd & Hs)).
    rewrite u8_small in Hp1 by exact Hd.
    rewrite Hrun. eexists. split; [reflexivity|].
    split; [exact Hok1|]. split; [exact Ht1|]. split; [exact Htx1|].
    split; [reflexivity|]. split; [exact Ha|]. split; [exact Hdd|].
    split; [exact Hs|]. left. split; [exact Hroom | exact Hp1].
  - rewrite (twiStuffRxBuf_full s (TWDR s) Hok) by lia.
    eexists. split; [reflexivity|].
    split; [exact Hok|]. split; [reflexivity|].
    split; [unfold same_tx; simpl; tauto|].
    split; [reflexivity|]. split; [reflexivity|]. split; [reflexivity|].
    split; [reflexivity|]. right. split; [lia | unfold same_rx; simpl; tauto].
Qed.

Lemma receive_events_spec status ds :
  status = TWI_SRX_ADR_DATA_ACK \/ status = TWI_SRX_GEN_DATA_ACK ->
  forall s, rx_ok s -> Forall is_u8 ds ->
  exists s', receive_events status ds s = Some (tt, s') /\ rx_ok s' /\
             rx_pending s' = rx_pending s ++ take (rx_room s) ds /\
             rxTail s' = rxTail s /\ same_tx s s'.
Proof using rx_bits_range.
  clear tx_bits_range.
  intros Hst. induction ds as [|d ds IH]; intros s Hok Hbytes.
  - exists s. rewrite take_nil, app_nil_r.
    split; [reflexivity|]. auto using same_tx_refl.
  - apply Forall_cons in Hbytes as [Hd Hbytes].
    set (s0 := set_cell RegTWDR (u8 d) (set_cell RegTWSR (u8 status) s)).
    assert (Hsr : TWSR s0 = TWI_SRX_ADR_DATA_ACK \/ TWSR s0 = TWI_SRX_GEN_DATA_ACK).
    { destruct Hst as [-> | ->]; [left | right]; reflexivity. }
    assert (Hd0 : is_u8 (TWDR s0)) by apply u8_is_u8.
    destruct (TWI_vect_data_spec s0 Hsr Hok Hd0)
      as (s1 & Hrun & Hok1 & Ht1 & Htx1 & _ & _ & _ & _ & Hcase).
    destruct (IH s1 Hok1 Hbytes) as (s2 & Hrun2 & Hok2 & Hp2 & Ht2 & Htx2).
    exists s2.
    change (receive_events status (d :: ds) s)
      with (match TWI_vect s0 with
            | Some (_, s') => receive_events status ds s'
            | None => None
            end).
    rewrite Hrun. split; [exact Hrun2|]. split; [exact Hok2|].
    split; [|split; [rewrite Ht2; exact Ht1 | exact (same_tx_trans s s1 s2 Htx1 Htx2)]].
    change (rx_pending s0) with (rx_pending s) in Hcase.
    change (TWDR s0) with (u8 d) in Hcase. rewrite (u8_small d Hd) in Hcase.
    pose proof (rx_pending_bound s Hok) as Hbound.
    destruct Hcase as [[Hroom Hp1] | [Hfull Hsame]].
    + assert (Hr : rx_room s = S (rx_room s1)).
      { unfold rx_room. rewrite Hp1, length_app. simpl. lia. }
      rewrite Hp2, Hp1, Hr, <- app_assoc. reflexivity.
    + assert (Hr : rx_room s = O) by (unfold rx_room; lia).
      assert (Hp1 : rx_pending s1 = rx_pending s) by (apply (same_rx_pending s0 s1 Hsame)).
      assert (Hr1 : rx_room s1 = O) by (unfold rx_room; rewrite Hp1; lia).
      rewrite Hp2, Hp1, Hr, Hr1. reflexivity.
Qed.


(** The statuses that neither move a byte nor force a stop all write the
    same control value. *)
Lemma TWI_vect_rearm s :
  TWSR s <> TWI_SRX_ADR_DATA_ACK -> TWSR s <> TWI_SRX_GEN_DATA_ACK ->
  TWSR s <> TWI_STX_ADR_ACK -> TWSR s <> TWI_STX_DATA_ACK ->
  is_error_status (TWSR s) = false ->
  TWI_vect s = Some (tt, set_cell RegTWCR 0xC5 s).
Proof.
  intros H1 H2 H3 H4 He. cbv beta iota delta [TWI_vect mbind drv_bind load get_cell].
  apply Z.eqb_neq in H1, H2, H3, H4. rewrite H1, H2, H3, H4. cbn [orb].
  fold (is_error_status (TWSR s)). rewrite He.
  repeat match goal with
         | |- context [if ?b then _ else _] => destruct b
         end; reflexivity.
Qed.

(** X1. A block handed to [twiTransmitByte] byte by byte is queued behind
    what is pending, as far as there is room: the first bytes of the block
    are kept and the later ones dropped, nothing pending is overwritten.
    Neither [txTail], the receive buffer nor a register changes. *)
Theorem transmit_burst_keeps_oldest (s : twi) (bs : list Z) :
  tx_ok s -> Forall is_u8 bs ->
  exists s',
    transmit_all bs s = Some (tt, s') /\
    tx_pending s' = tx_pending s ++ take (tx_room s) bs /\
    txTail s' = txTail s /\ same_rx s s' /\ same_regs s s'.
Proof using tx_bits_range.
  clear rx_bits_range.
  intros Hok Hbytes.
  destruct (transmit_all_spec bs s Hok Hbytes) as (s' & Hrun & _ & Hrest).
  exists s'. auto.
Qed.

(** X2. The same for [twiStuffRxBuf] and the receive buffer. *)
Theorem stuff_burst_keeps_oldest (s : twi) (bs : list Z) :
  rx_ok s -> Forall is_u8 bs ->
  exists s',
    stuff_all bs s = Some (tt, s') /\
    rx_pending s' = rx_pending s ++ take (rx_room s) bs /\
    rxTail s' = rxTail s /\ same_tx s s' /\ same_regs s s'.
Proof using rx_bits_range.
  clear tx_bits_range.
  intros Hok Hbytes.
  destruct (stuff_all_spec bs s Hok Hbytes) as (s' & Hrun & _ & Hrest).
  exists s'. auto.
Qed.

(** X3. A data-received event (0x80 or 0x90) appends the byte in TWDR to
    the receive buffer when fewer than capacity - 1 bytes are pending, and
    leaves the buffer as it is when it is full; in both cases the handler
    writes the acknowledging control value 0xC5 and does not touch the
    transmit buffer, TWAR, TWDR or TWSR. *)
Theorem data_event_appends_or_drops (s : twi) :
  TWSR s = TWI_SRX_ADR_DATA_ACK \/ TWSR s = TWI_SRX_GEN_DATA_ACK ->
  rx_ok s -> is_u8 (TWDR s) ->
  exists s',
    TWI_vect s = Some (tt, s') /\
    rxTail s' = rxTail s /\ same_tx s s' /\
    TWCR s' = 0xC5 /\ TWAR s' = TWAR s /\ TWDR s' = TWDR s /\ TWSR s' = TWSR s /\
    ((Z.of_nat (length (rx_pending s)) < TWI_RX_BUFFER_SIZE - 1 /\
      rx_pending s' = rx_pending s ++ [TWDR s]) \/
     (Z.of_nat (length (rx_pending s)) = TWI_RX_BUFFER_SIZE - 1 /\
      same_rx s s')).
Proof using rx_bits_range.
  clear tx_bits_range.
  intros Hsr Hok Hd.
  destruct (TWI_vect_data_spec s Hsr Hok Hd) as (s' & Hrun & _ & Hrest).
  exists s'. auto.
Qed.


(** X5. What the master writes, the application reads: after one
    data-received event per byte of a block, enough guarded calls of
    [twiReceiveByte] return the bytes that were pending followed by the
    bytes of the block that found room, in the order of arrival, and the
    buffer is empty. *)
Theorem master_write_then_reads (s : twi) (status : Z) (ds : list Z) (k : nat) :
  status = TWI_SRX_ADR_DATA_ACK \/ status = TWI_SRX_GEN_DATA_ACK ->
  rx_ok s -> Forall is_u8 ds ->
  (length (rx_pending s) + length ds <= k)%nat ->
  exists s',
    (receive_events status ds ;; rx_ops (replicate k Pop)) s
    = Some (rx_pending s ++ take (rx_room s) ds, s') /\
    rx_pending s' = [].
Proof using rx_bits_range.
  clear tx_bits_range.
  intros Hst Hok Hbytes Hk.
  destruct (receive_events_spec status ds Hst s Hok Hbytes)
    as (s1 & Hrun1 & Hok1 & Hp1 & _).
  destruct (rx_drain k s1 Hok1) as (s2 & Hrun2 & _ & Hp2).
  { rewrite Hp1, length_app, length_take. lia. }
  exists s2. unfold mbind, drv_bind. rewrite Hrun1, Hrun2, Hp1. auto.
Qed.

(** X6. Whatever the status code, the handler returns, and it leaves in
    TWCR one of two values: 0x90 (TWSTO and TWINT) on the five codes of the
    forced-stop branch, 0xC5 (TWEN, TWIE, TWINT, TWEA) on every other code,
    recognised or not.  TWAR and TWSR are never written. *)
Theorem handler_control_value (s : twi) :
  wf s ->
  exists s',
    TWI_vect s = Some (tt, s') /\
    TWCR s' = (if is_error_status (TWSR s) then 0x90 else 0xC5) /\
    TWAR s' = TWAR s /\ TWSR s' = TWSR s.
Proof using rx_bits_range tx_bits_range.
  intros [Hrx Htx].
  destruct (is_error_status (TWSR s)) eqn:He.
  - rewrite TWI_vect_error.
    + eexists. split; [reflexivity|]. simpl. auto.
    + unfold is_error_status in He. rewrite !orb_true_iff, !Z.eqb_eq in He. tauto.
  - assert (Hne : TWSR s <> TWI_SRX_ADR_DATA_NACK /\ TWSR s <> TWI_BUS_ERROR).
    { unfold is_error_status in He. rewrite !orb_false_iff, !Z.eqb_neq in He. tauto. }
    destruct (Z.eq_dec (TWSR s) TWI_SRX_ADR_DATA_ACK) as [H1|H1];
      [|destruct (Z.eq_dec (TWSR s) TWI_SRX_GEN_DATA_ACK) as [H2|H2]].
    1,2: rewrite TWI_vect_data by tauto; unfold mbind, drv_bind;
         rewrite twiStuffRxBuf_eq by assumption; cbv zeta;
         destruct (_ =? _); eexists; (split; [reflexivity|]); simpl; auto.
    destruct (Z.eq_dec (TWSR s) TWI_STX_ADR_ACK) as [H3|H3];
      [|destruct (Z.eq_dec (TWSR s) TWI_STX_DATA_ACK) as [H4|H4]].
    1,2: rewrite TWI_vect_transmit by tauto;
         destruct (_ =? _); eexists; (split; [reflexivity|]); simpl; auto.
    rewrite (TWI_vect_rearm s H1 H2 H3 H4 He).
    eexists. split; [reflexivity|]. simpl. auto.
Qed.

(** X7. On every status code other than the two data-received and the two
    data-requested codes - address matches, stop, not-acknowledge, the
    error codes, the arbitration-lost codes whose case labels are commented
    out, and codes the hardware never produces - the handler moves no
    byte: both buffers with their indices, TWDR, TWAR and TWSR stay as
    they are, in any state. *)
Theorem handler_moves_no_byte (s : twi) :
  TWSR s <> TWI_SRX_ADR_DATA_ACK -> TWSR s <> TWI_SRX_GEN_DATA_ACK ->
  TWSR s <> TWI_STX_ADR_ACK -> TWSR s <> TWI_STX_DATA_ACK ->
  exists s',
    TWI_vect s = Some (tt, s') /\ same_rx s s' /\ same_tx s s' /\
    TWDR s' = TWDR s /\ TWAR s' = TWAR s /\ TWSR s' = TWSR s.
Proof.
  clear rx_bits_range tx_bits_range.
  intros H1 H2 H3 H4.
  destruct (TWI_vect_control_only s H1 H2 H3 H4) as (v & Hrun).
  eexists. split; [exact Hrun|]. unfold same_rx, same_tx. simpl. tauto.
Qed.

(** X8. Each side writes only its own index.  The producers
    [twiTransmitByte] and [twiStuffRxBuf] never write the tail of their
    buffer, the consumer [twiReceiveByte] never writes [rxHead] or [rxBuf];
    none of the three touches the other buffer or a register, whether the
    buffer is full, empty or in between. *)
Theorem producers_and_consumers_keep_apart (s : twi) (data : Z) :
  wf s ->
  (exists s', twiTransmitByte data s = Some (tt, s') /\
              txTail s' = txTail s /\ same_rx s s' /\ same_regs s s') /\
  (exists s', twiStuffRxBuf data s = Some (tt, s') /\
              rxTail s' = rxTail s /\ same_tx s s' /\ same_regs s s') /\
  (exists b s', twiReceiveByte s = Some (b, s') /\
                rxHead s' = rxHead s /\ rxBuf s' = rxBuf s /\
                same_tx s s' /\ same_regs s s').
Proof using rx_bits_range tx_bits_range.
  intros [Hrx Htx]. split; [|split].
  - rewrite twiTransmitByte_eq by assumption. cbv zeta.
    destruct (_ =? _); eexists; (split; [reflexivity|]);
      unfold same_rx, same_regs; simpl; tauto.
  - rewrite twiStuffRxBuf_eq by assumption. cbv zeta.
    destruct (_ =? _); eexists; (split; [reflexivity|]);
      unfold same_tx, same_regs; simpl; tauto.
  - destruct (Z.eq_dec (rxHead s) (rxTail s)) as [He|Hne].
    + rewrite twiReceiveByte_empty by assumption. eexists _, _.
      split; [reflexivity|]. unfold same_tx, same_regs. tauto.
    + rewrite twiReceiveByte_eq by assumption. cbv zeta. eexists _, _.
      split; [reflexivity|]. unfold same_tx, same_regs. simpl. tauto.
Qed.

(** X9. The two probes tell the truth and change nothing:
    [twiDataInReceiveBuffer] answers true exactly when the receive buffer
    holds a byte, [twiDataInTransmitBuffer] exactly when the transmit
    buffer does. *)
Theorem probes_agree_with_contents (s : twi) :
  wf s ->
  (exists b, twiDataInReceiveBuffer s = Some (b, s) /\
             (b = true <-> rx_pending s <> [])) /\
  (exists b, twiDataInTransmitBuffer s = Some (b, s) /\
             (b = true <-> tx_pending s <> [])).
Proof.
  clear rx_bits_range tx_bits_range.
  intros [[Hrl Hrh Hrt _] [Htl Hth Htt _]]. split.
  - rewrite twiDataInReceiveBuffer_eq. eexists. split; [reflexivity|].
    unfold rx_pending. rewrite (pending_nil_iff _ (rxBuf s) _ _ Hrh Hrt).
    destruct (Z.eqb_spec (rxHead s) (rxTail s)); simpl; split; intros; congruence.
  - rewrite twiDataInTransmitBuffer_eq. eexists. split; [reflexivity|].
    unfold tx_pending. rewrite (pending_nil_iff _ (txBuf s) _ _ Hth Htt).
    destruct (Z.eqb_spec (txHead s) (txTail s)); simpl; split; intros; congruence.
Qed.

(** X10. [twiSlaveInit] uses the low seven bits of its argument only: the
    shift pushes bit 7 out of the 8-bit register, so TWAR is twice the
    address modulo 128, and an address and the same address plus 128
    configure the same slave. *)
Theorem init_uses_low_seven_bits (s : twi) (a : Z) :
  TWAR <$> final (twiSlaveInit a) s = Some (2 * (a mod 128)) /\
  twiSlaveInit a s = twiSlaveInit (a mod 128) s /\
  twiSlaveInit (a + 128) s = twiSlaveInit a s.
Proof.
  clear rx_bits_range tx_bits_range.
  assert (Htwar : forall x, u8 ((x .<< 1) .| 0) = 2 * (x mod 128)).
  { intros x. rewrite Z.lor_0_r, Z.shiftl_mul_pow2 by lia. change (2 ^ 1) with 2.
    unfold u8. change 256 with (2 * 128). rewrite (Z.mul_comm x 2).
    apply Z.mul_mod_distr_l; lia. }
  assert (Hrun : forall x, twiSlaveInit x s
            = Some (tt, set_cell RegTWCR 4 (set_cell RegTWAR (2 * (x mod 128)) s))).
  { intros x. unfold twiSlaveInit, mbind, drv_bind, mret, drv_ret, store.
    rewrite Htwar. reflexivity. }
  split; [|split].
  - unfold final. rewrite Hrun. reflexivity.
  - rewrite !Hrun, Z.mod_mod by lia. reflexivity.
  - rewrite !Hrun. replace (a + 128) with (a + 1 * 128) by lia.
    rewrite Z.mod_add by lia. reflexivity.
Qed.

(** X11. The value 0x88 returned by [twiReceiveByte] is ambiguous: a
    buffer whose oldest byte is 0x88 and an empty buffer return the same
    value.  Only [twiDataInReceiveBuffer], asked before, tells them apart. *)
Theorem sentinel_is_ambiguous (s e : twi) (rest : list Z) :
  rx_ok s -> rx_pending s = 0x88 :: rest -> rxHead e = rxTail e ->
  result twiReceiveByte s = result twiReceiveByte e /\
  result twiDataInReceiveBuffer s = Some true /\
  result twiDataInReceiveBuffer e = Some false.
Proof using rx_bits_range.
  clear tx_bits_range.
  intros Hok Hp He.
  assert (Hne : rxHead s <> rxTail s).
  { intros Heq. destruct Hok as [Hlen Hh Ht Hb].
    apply (pending_nil_iff _ (rxBuf s) _ _ Hh Ht) in Heq.
    unfold rx_pending in Hp. congruence. }
  destruct (twiReceiveByte_some s Hok Hne) as (b & s' & Hrun & _ & Hp' & _).
  rewrite Hp in Hp'. injection Hp' as <- _.
  unfold result. rewrite Hrun, (twiReceiveByte_empty e He), !twiDataInReceiveBuffer_eq.
  rewrite He, Z.eqb_refl.
  destruct (Z.eqb_spec (rxHead s) (rxTail s)); [contradiction|]. auto.
Qed.

(** X12. Recovery keeps stale data: an error-class event followed by
    [twiSlaveEnable] ends with the control value 0xC5 of a running
    interface, and both buffers still hold exactly what they held. *)
Theorem error_then_enable_keeps_data (s : twi) :
  is_error_status (TWSR s) = true ->
  exists s',
    (TWI_vect ;; twiSlaveEnable) s = Some (tt, s') /\
    TWCR s' = 0xC5 /\ same_rx s s' /\ same_tx s s' /\
    rx_pending s' = rx_pending s /\ tx_pending s' = tx_pending s.
Proof.
  clear rx_bits_range tx_bits_range.
  intros He. unfold mbind, drv_bind. rewrite TWI_vect_error.
  - eexists. split; [reflexivity|]. unfold same_rx, same_tx. simpl. tauto.
  - unfold is_error_status in He. rewrite !orb_true_iff, !Z.eqb_eq in He. tauto.
Qed.

End Driver.

(** ** The driver with eight-byte buffers (mask 0x07), run on examples *)

Ltac ring_index :=
  unfold TWI_RX_BUFFER_SIZE, TWI_TX_BUFFER_SIZE; simpl; lia.

Ltac ring_bytes :=
  cbn; repeat constructor; unfold is_u8; lia.

Lemma demo_idle_wf : wf 3 3 demo_idle.
Proof.
  split; (split; [reflexivity | ring_index | ring_index | ring_bytes]).
Defined.

Lemma demo_full_wf : wf 3 3 demo_full.
Proof.
  split; (split; [reflexivity | ring_index | ring_index | ring_bytes]).
Defined.

Lemma demo_read_request_tx_ok : tx_ok 3 demo_read_request.
Proof.
  split; [reflexivity | ring_index | ring_index | ring_bytes].
Defined.

(** Push 0x11, 0x22, 0x33; data is reported; the reads give 0x11, 0x22,
    0x33 and then the sentinel. *)
Example scenario_push_three_pop_four :
  result (twiStuffRxBuf 3 0x11 ;; twiStuffRxBuf 3 0x22 ;; twiStuffRxBuf 3 0x33 ;;
          avail ← twiDataInReceiveBuffer ;
          a ← twiReceiveByte 3 ; b ← twiReceiveByte 3 ;
          c ← twiReceiveByte 3 ; d ← twiReceiveByte 3 ;
          mret (avail, [a; b; c; d])) demo_idle
  = Some (true, [0x11; 0x22; 0x33; 0x88]).
Proof. reflexivity. Qed.

(** Seven bytes fill the transmit buffer; the eighth is dropped and seven
    stay available. *)
Example scenario_eighth_push_dropped :
  tx_pending 3 <$>
    final (twiTransmitByte 3 1 ;; twiTransmitByte 3 2 ;; twiTransmitByte 3 3 ;;
           twiTransmitByte 3 4 ;; twiTransmitByte 3 5 ;; twiTransmitByte 3 6 ;;
           twiTransmitByte 3 7 ;; twiTransmitByte 3 8) demo_idle
  = Some [1; 2; 3; 4; 5; 6; 7].
Proof. reflexivity. Qed.

(** A data-requested event on an empty transmit buffer loads 0x88. *)
Example scenario_transmit_underrun :
  TWDR <$> final (bus_event 3 3 TWI_STX_ADR_ACK) demo_idle = Some 0x88.
Proof. reflexivity. Qed.

Lemma fifo_order_witness :
  0 <= 3 <= 8 /\
  rx_ok 3 demo_idle /\
  Forall is_u8 (pushed [Push 0x11; Push 0x22; Pop; Push 0x33]) /\
  fits (TWI_RX_BUFFER_SIZE 3) (Z.of_nat (length (rx_pending 3 demo_idle)))
       [Push 0x11; Push 0x22; Pop; Push 0x33] = true /\
  (length (rx_pending 3 demo_idle)
   + length (pushed [Push 0x11; Push 0x22; Pop; Push 0x33]) <= 3)%nat /\
  exists s',
    rx_ops 3 ([Push 0x11; Push 0x22; Pop; Push 0x33] ++ replicate 3 Pop) demo_idle
    = Some (rx_pending 3 demo_idle ++ pushed [Push 0x11; Push 0x22; Pop; Push 0x33], s') /\
    rx_pending 3 s' = [] /\
    twiReceiveByte 3 s' = Some (0x88, s').
Proof.
  assert (H1 : 0 <= 3 <= 8) by lia.
  assert (H2 : rx_ok 3 demo_idle) by exact (proj1 demo_idle_wf).
  assert (H3 : Forall is_u8 (pushed [Push 0x11; Push 0x22; Pop; Push 0x33]))
    by (cbn; repeat constructor; unfold is_u8; lia).
  assert (H4 : fits (TWI_RX_BUFFER_SIZE 3) (Z.of_nat (length (rx_pending 3 demo_idle)))
                 [Push 0x11; Push 0x22; Pop; Push 0x33] = true) by reflexivity.
  assert (H5 : (length (rx_pending 3 demo_idle)
                + length (pushed [Push 0x11; Push 0x22; Pop; Push 0x33]) <= 3)%nat)
    by (vm_compute; lia).
  repeat (split; [assumption|]).
  exact (fifo_order 3 H1 demo_idle [Push 0x11; Push 0x22; Pop; Push 0x33] 3 H2 H3 H4 H5).
Defined.

Lemma push_on_full_buffer_witness :
  0 <= 3 <= 8 /\
  wf 3 3 demo_full /\
  Z.of_nat (length (tx_pending 3 demo_full)) = TWI_TX_BUFFER_SIZE 3 - 1 /\
  Z.of_nat (length (rx_pending 3 demo_full)) = TWI_RX_BUFFER_SIZE 3 - 1 /\
  twiTransmitByte 3 0x42 demo_full = Some (tt, demo_full) /\
  twiStuffRxBuf 3 0x42 demo_full = Some (tt, demo_full).
Proof.
  assert (H1 : 0 <= 3 <= 8) by lia.
  assert (Htx : Z.of_nat (length (tx_pending 3 demo_full)) = TWI_TX_BUFFER_SIZE 3 - 1)
    by reflexivity.
  assert (Hrx : Z.of_nat (length (rx_pending 3 demo_full)) = TWI_RX_BUFFER_SIZE 3 - 1)
    by reflexivity.
  destruct (push_on_full_buffer 3 3 H1 H1 demo_full 0x42 demo_full_wf) as [Ht Hr].
  repeat (split; [assumption || exact demo_full_wf|]).
  split; [exact (Ht Htx) | exact (Hr Hrx)].
Defined.

(** The byte 0x42 offered to the full transmit buffer is dropped, and the
    call returns what a call that queues the byte returns: nothing tells
    the caller.  The same holds for [twiStuffRxBuf]. *)
Lemma full_push_not_reported :
  Z.of_nat (length (tx_pending 3 demo_full)) = TWI_TX_BUFFER_SIZE 3 - 1 /\
  final (twiTransmitByte 3 0x42) demo_full = Some demo_full /\
  tx_pending 3 <$> final (twiTransmitByte 3 0x42) demo_idle = Some [0x42] /\
  ~ reports_failure (twiTransmitByte 3 0x42) demo_full demo_idle /\
  ~ reports_failure (twiStuffRxBuf 3 0x42) demo_full demo_idle.
Proof.
  repeat (split; [reflexivity|]).
  split; intros H; apply H; reflexivity.
Qed.

Lemma receive_on_empty_witness :
  rxHead demo_idle = rxTail demo_idle /\
  twiReceiveByte 3 demo_idle = Some (0x88, demo_idle).
Proof.
  split; [reflexivity|]. exact (receive_on_empty 3 demo_idle eq_refl).
Defined.

Lemma data_requested_event_witness :
  0 <= 3 <= 8 /\
  tx_ok 3 demo_read_request /\
  (TWSR demo_read_request = TWI_STX_ADR_ACK \/ TWSR demo_read_request = TWI_STX_DATA_ACK) /\
  result twiDataInTransmitBuffer demo_read_request = Some true /\
  exists s',
    TWI_vect 3 3 demo_read_request = Some (tt, s') /\ same_rx demo_read_request s' /\
    (result twiDataInTransmitBuffer demo_read_request = Some true ->
     exists b, tx_pending 3 demo_read_request = b :: tx_pending 3 s' /\ TWDR s' = b /\
               txBuf s' = txBuf demo_read_request /\ txHead s' = txHead demo_read_request) /\
    (result twiDataInTransmitBuffer demo_read_request = Some false ->
     tx_pending 3 demo_read_request = [] /\ TWDR s' = 0x88 /\ same_tx demo_read_request s').
Proof.
  assert (H1 : 0 <= 3 <= 8) by lia.
  assert (H2 : TWSR demo_read_request = TWI_STX_ADR_ACK \/
               TWSR demo_read_request = TWI_STX_DATA_ACK) by (left; reflexivity).
  split; [exact H1|]. split; [exact demo_read_request_tx_ok|].
  split; [exact H2|]. split; [reflexivity|].
  exact (data_requested_event 3 3 H1 demo_read_request demo_read_request_tx_ok H2).
Defined.

Lemma error_event_forces_stop_witness :
  (TWSR demo_bus_error = TWI_SRX_ADR_DATA_NACK \/
   TWSR demo_bus_error = TWI_SRX_GEN_DATA_NACK \/
   TWSR demo_bus_error = TWI_STX_DATA_ACK_LAST_BYTE \/
   TWSR demo_bus_error = TWI_NO_STATE \/
   TWSR demo_bus_error = TWI_BUS_ERROR) /\
  exists s',
    TWI_vect 3 3 demo_bus_error = Some (tt, s') /\
    TWCR s' = (1 .<< TWSTO) .| (1 .<< TWINT) /\
    (forall i, Z.testbit (TWCR s') i = true <-> i = TWSTO \/ i = TWINT) /\
    same_rx demo_bus_error s' /\ same_tx demo_bus_error s'.
Proof.
  assert (H : TWSR demo_bus_error = TWI_SRX_ADR_DATA_NACK \/
              TWSR demo_bus_error = TWI_SRX_GEN_DATA_NACK \/
              TWSR demo_bus_error = TWI_STX_DATA_ACK_LAST_BYTE \/
              TWSR demo_bus_error = TWI_NO_STATE \/
              TWSR demo_bus_error = TWI_BUS_ERROR)
    by (right; right; right; right; reflexivity).
  split; [exact H|]. exact (error_event_forces_stop 3 3 demo_bus_error H).
Defined.

Lemma data_event_then_receive_witness :
  0 <= 3 <= 8 /\
  rx_ok 3 demo_idle /\
  1 <= 3 /\
  (TWI_SRX_ADR_DATA_ACK = TWI_SRX_ADR_DATA_ACK \/
   TWI_SRX_ADR_DATA_ACK = TWI_SRX_GEN_DATA_ACK) /\
  is_u8 0x5A /\
  rxHead demo_idle = rxTail demo_idle /\
  result (bus_event_data 3 3 TWI_SRX_ADR_DATA_ACK 0x5A ;;
          avail ← twiDataInReceiveBuffer ;
          r ← twiReceiveByte 3 ;
          mret (avail, r)) demo_idle
  = Some (true, 0x5A).
Proof.
  assert (H1 : 0 <= 3 <= 8) by lia.
  assert (H2 : 1 <= 3) by lia.
  assert (H3 : TWI_SRX_ADR_DATA_ACK = TWI_SRX_ADR_DATA_ACK \/
               TWI_SRX_ADR_DATA_ACK = TWI_SRX_GEN_DATA_ACK) by (left; reflexivity).
  assert (H4 : is_u8 0x5A) by (unfold is_u8; lia).
  split; [exact H1|]. split; [exact (proj1 demo_idle_wf)|]. split; [exact H2|].
  split; [exact H3|]. split; [exact H4|]. split; [reflexivity|].
  exact (data_event_then_receive 3 3 H1 demo_idle TWI_SRX_ADR_DATA_ACK 0x5A
           (proj1 demo_idle_wf) H2 H3 H4 eq_refl).
Defined.

Lemma clear_then_push_pop_witness :
  0 <= 3 <= 8 /\
  arrays_ok 3 3 demo_full /\
  1 <= 3 /\
  (TWI_STX_ADR_ACK = TWI_STX_ADR_ACK \/ TWI_STX_ADR_ACK = TWI_STX_DATA_ACK) /\
  is_u8 0x5A /\
  result (twiClearOutput ;;
          pend ← twiDataInTransmitBuffer ;
          twiTransmitByte 3 0x5A ;;
          bus_event 3 3 TWI_STX_ADR_ACK ;;
          sent ← load RegTWDR ;
          mret (pend, sent)) demo_full
  = Some (false, 0x5A)
  /\
  result (flushTwiBuffers ;;
          avail ← twiDataInReceiveBuffer ;
          pend ← twiDataInTransmitBuffer ;
          twiStuffRxBuf 3 0x5A ;;
          got ← twiReceiveByte 3 ;
          twiTransmitByte 3 0x5A ;;
          bus_event 3 3 TWI_STX_ADR_ACK ;;
          sent ← load RegTWDR ;
          mret (avail, pend, got, sent)) demo_full
  = Some (false, false, 0x5A, 0x5A).
Proof.
  assert (H1 : 0 <= 3 <= 8) by lia.
  assert (H2 : arrays_ok 3 3 demo_full).
  { destruct demo_full_wf as [[Hrl _ _ Hrb] [Htl _ _ Htb]].
    unfold arrays_ok. auto. }
  assert (H3 : 1 <= 3) by lia.
  assert (H4 : TWI_STX_ADR_ACK = TWI_STX_ADR_ACK \/ TWI_STX_ADR_ACK = TWI_STX_DATA_ACK)
    by (left; reflexivity).
  assert (H5 : is_u8 0x5A) by (unfold is_u8; lia).
  repeat (split; [assumption|]).
  exact (clear_then_push_pop 3 3 H1 H1 demo_full TWI_STX_ADR_ACK 0x5A H2 H3 H3 H4 H5).
Defined.

Lemma init_leaves_disabled_witness :
  0 <= 0x50 < 128 /\
  exists s',
    twiSlaveInit 0x50 demo_idle = Some (tt, s') /\
    is_u8 (TWAR s') /\ Z.shiftr (TWAR s') 1 = 0x50 /\
    Z.testbit (TWCR s') TWEN = true /\
    Z.testbit (TWCR s') TWIE = false /\
    Z.testbit (TWCR s') TWEA = false /\
    same_rx demo_idle s' /\ same_tx demo_idle s' /\
    exists s'',
      twiSlaveEnable s' = Some (tt, s'') /\
      Z.testbit (TWCR s'') TWEN = true /\
      Z.testbit (TWCR s'') TWIE = true /\
      Z.testbit (TWCR s'') TWEA = true /\
      TWAR s'' = TWAR s'.
Proof.
  assert (H : 0 <= 0x50 < 128) by lia.
  split; [exact H|]. exact (init_leaves_disabled demo_idle 0x50 H).
Defined.

Lemma indices_stay_in_bounds_witness :
  0 <= 3 <= 8 /\
  zero_initialized 3 3 demo_idle /\
  exists s,
    run 3 3 [CallInit 0x50; CallEnable;
             BusEvent TWI_SRX_ADR_ACK 0; BusEvent TWI_SRX_ADR_DATA_ACK 0x5A;
             BusEvent TWI_SRX_STOP_RESTART 0; CallDataInReceiveBuffer; CallReceive;
             CallTransmit 0x21; BusEvent TWI_STX_ADR_ACK 0; BusEvent TWI_STX_DATA_ACK 0;
             BusEvent TWI_BUS_ERROR 0; CallDataInTransmitBuffer; CallClearOutput;
             CallStuffRxBuf 0x11; CallFlush] demo_idle
    = Some (tt, s) /\
    in_bounds 3 3 s.
Proof.
  assert (H1 : 0 <= 3 <= 8) by lia.
  assert (H2 : zero_initialized 3 3 demo_idle) by (repeat split; reflexivity).
  split; [exact H1|]. split; [exact H2|].
  exact (indices_stay_in_bounds 3 3 H1 H1 demo_idle _ H2).
Defined.


(** ** The further properties, run on examples *)

Lemma transmit_burst_keeps_oldest_witness :
  0 <= 3 <= 8 /\
  tx_ok 3 demo_read_request /\
  Forall is_u8 [1; 2; 3; 4; 5; 6; 7] /\
  exists s',
    transmit_all 3 [1; 2; 3; 4; 5; 6; 7] demo_read_request = Some (tt, s') /\
    tx_pending 3 s'
    = tx_pending 3 demo_read_request ++ take (tx_room 3 demo_read_request) [1; 2; 3; 4; 5; 6; 7] /\
    txTail s' = txTail demo_read_request /\
    same_rx demo_read_request s' /\ same_regs demo_read_request s'.
Proof.
  assert (H1 : 0 <= 3 <= 8) by lia.
  assert (H2 : Forall is_u8 [1; 2; 3; 4; 5; 6; 7]) by ring_bytes.
  split; [exact H1|]. split; [exact demo_read_request_tx_ok|]. split; [exact H2|].
  exact (transmit_burst_keeps_oldest 3 H1 demo_read_request [1; 2; 3; 4; 5; 6; 7]
           demo_read_request_tx_ok H2).
Defined.

Lemma stuff_burst_keeps_oldest_witness :
  0 <= 3 <= 8 /\
  rx_ok 3 demo_idle /\
  Forall is_u8 [1; 2; 3; 4; 5; 6; 7; 8; 9] /\
  exists s',
    stuff_all 3 [1; 2; 3; 4; 5; 6; 7; 8; 9] demo_idle = Some (tt, s') /\
    rx_pending 3 s'
    = rx_pending 3 demo_idle ++ take (rx_room 3 demo_idle) [1; 2; 3; 4; 5; 6; 7; 8; 9] /\
    rxTail s' = rxTail demo_idle /\
    same_tx demo_idle s' /\ same_regs demo_idle s'.
Proof.
  assert (H1 : 0 <= 3 <= 8) by lia.
  assert (H2 : Forall is_u8 [1; 2; 3; 4; 5; 6; 7; 8; 9]) by ring_bytes.
  split; [exact H1|]. split; [exact (proj1 demo_idle_wf)|]. split; [exact H2|].
  exact (stuff_burst_keeps_oldest 3 H1 demo_idle [1; 2; 3; 4; 5; 6; 7; 8; 9]
           (proj1 demo_idle_wf) H2).
Defined.

Lemma data_event_appends_or_drops_witness :
  0 <= 3 <= 8 /\
  (TWSR (set_cell RegTWDR 0x5A (set_cell RegTWSR TWI_SRX_GEN_DATA_ACK demo_full))
   = TWI_SRX_ADR_DATA_ACK \/
   TWSR (set_cell RegTWDR 0x5A (set_cell RegTWSR TWI_SRX_GEN_DATA_ACK demo_full))
   = TWI_SRX_GEN_DATA_ACK) /\
  rx_ok 3 (set_cell RegTWDR 0x5A (set_cell RegTWSR TWI_SRX_GEN_DATA_ACK demo_full)) /\
  is_u8 (TWDR (set_cell RegTWDR 0x5A (set_cell RegTWSR TWI_SRX_GEN_DATA_ACK demo_full))) /\
  exists s',
    TWI_vect 3 3 (set_cell RegTWDR 0x5A (set_cell RegTWSR TWI_SRX_GEN_DATA_ACK demo_full))
    = Some (tt, s') /\
    rxTail s' = rxTail (set_cell RegTWDR 0x5A (set_cell RegTWSR TWI_SRX_GEN_DATA_ACK demo_full)) /\
    same_tx (set_cell RegTWDR 0x5A (set_cell RegTWSR TWI_SRX_GEN_DATA_ACK demo_full)) s' /\
    TWCR s' = 0xC5 /\
    TWAR s' = TWAR (set_cell RegTWDR 0x5A (set_cell RegTWSR TWI_SRX_GEN_DATA_ACK demo_full)) /\
    TWDR s' = TWDR (set_cell RegTWDR 0x5A (set_cell RegTWSR TWI_SRX_GEN_DATA_ACK demo_full)) /\
    TWSR s' = TWSR (set_cell RegTWDR 0x5A (set_cell RegTWSR TWI_SRX_GEN_DATA_ACK demo_full)) /\
    ((Z.of_nat (length (rx_pending 3
         (set_cell RegTWDR 0x5A (set_cell RegTWSR TWI_SRX_GEN_DATA_ACK demo_full))))
      < TWI_RX_BUFFER_SIZE 3 - 1 /\
      rx_pending 3 s'
      = rx_pending 3 (set_cell RegTWDR 0x5A (set_cell RegTWSR TWI_SRX_GEN_DATA_ACK demo_full))
        ++ [TWDR (set_cell RegTWDR 0x5A (set_cell RegTWSR TWI_SRX_GEN_DATA_ACK demo_full))]) \/
     (Z.of_nat (length (rx_pending 3
         (set_cell RegTWDR 0x5A (set_cell RegTWSR TWI_SRX_GEN_DATA_ACK demo_full))))
      = TWI_RX_BUFFER_SIZE 3 - 1 /\
      same_rx (set_cell RegTWDR 0x5A (set_cell RegTWSR TWI_SRX_GEN_DATA_ACK demo_full)) s')).
Proof.
  set (s := set_cell RegTWDR 0x5A (set_cell RegTWSR TWI_SRX_GEN_DATA_ACK demo_full)).
  assert (H1 : 0 <= 3 <= 8) by lia.
  assert (H2 : TWSR s = TWI_SRX_ADR_DATA_ACK \/ TWSR s = TWI_SRX_GEN_DATA_ACK)
    by (right; reflexivity).
  assert (H3 : rx_ok 3 s) by exact (proj1 demo_full_wf).
  assert (H4 : is_u8 (TWDR s)) by (unfold is_u8; simpl; lia).
  repeat (split; [assumption|]).
  exact (data_event_appends_or_drops 3 3 H1 s H2 H3 H4).
Defined.


Lemma master_write_then_reads_witness :
  0 <= 3 <= 8 /\
  (TWI_SRX_ADR_DATA_ACK = TWI_SRX_ADR_DATA_ACK \/
   TWI_SRX_ADR_DATA_ACK = TWI_SRX_GEN_DATA_ACK) /\
  rx_ok 3 demo_idle /\
  Forall is_u8 [0x11; 0x22; 0x33] /\
  (length (rx_pending 3 demo_idle) + length [0x11; 0x22; 0x33] <= 3)%nat /\
  exists s',
    (receive_events 3 3 TWI_SRX_ADR_DATA_ACK [0x11; 0x22; 0x33] ;;
     rx_ops 3 (replicate 3 Pop)) demo_idle
    = Some (rx_pending 3 demo_idle ++ take (rx_room 3 demo_idle) [0x11; 0x22; 0x33], s') /\
    rx_pending 3 s' = [].
Proof.
  assert (H1 : 0 <= 3 <= 8) by lia.
  assert (H2 : TWI_SRX_ADR_DATA_ACK = TWI_SRX_ADR_DATA_ACK \/
               TWI_SRX_ADR_DATA_ACK = TWI_SRX_GEN_DATA_ACK) by (left; reflexivity).
  assert (H3 : Forall is_u8 [0x11; 0x22; 0x33]) by ring_bytes.
  assert (H4 : (length (rx_pending 3 demo_idle) + length [0x11; 0x22; 0x33] <= 3)%nat)
    by (vm_compute; lia).
  split; [exact H1|]. split; [exact H2|]. split; [exact (proj1 demo_idle_wf)|].
  split; [exact H3|]. split; [exact H4|].
  exact (master_write_then_reads 3 3 H1 demo_idle TWI_SRX_ADR_DATA_ACK [0x11; 0x22; 0x33] 3
           H2 (proj1 demo_idle_wf) H3 H4).
Defined.

Lemma handler_control_value_witness :
  0 <= 3 <= 8 /\
  wf 3 3 (set_cell RegTWSR TWI_SRX_ADR_ACK_M_ARB_LOST demo_full) /\
  exists s',
    TWI_vect 3 3 (set_cell RegTWSR TWI_SRX_ADR_ACK_M_ARB_LOST demo_full) = Some (tt, s') /\
    TWCR s' = (if is_error_status
                    (TWSR (set_cell RegTWSR TWI_SRX_ADR_ACK_M_ARB_LOST demo_full))
               then 0x90 else 0xC5) /\
    TWAR s' = TWAR (set_cell RegTWSR TWI_SRX_ADR_ACK_M_ARB_LOST demo_full) /\
    TWSR s' = TWSR (set_cell RegTWSR TWI_SRX_ADR_ACK_M_ARB_LOST demo_full).
Proof.
  assert (H1 : 0 <= 3 <= 8) by lia.
  assert (H2 : wf 3 3 (set_cell RegTWSR TWI_SRX_ADR_ACK_M_ARB_LOST demo_full))
    by exact demo_full_wf.
  split; [exact H1|]. split; [exact H2|].
  exact (handler_control_value 3 3 H1 H1 _ H2).
Defined.

Lemma handler_moves_no_byte_witness :
  TWSR (set_cell RegTWSR TWI_STX_ADR_ACK_M_ARB_LOST demo_full) <> TWI_SRX_ADR_DATA_ACK /\
  TWSR (set_cell RegTWSR TWI_STX_ADR_ACK_M_ARB_LOST demo_full) <> TWI_SRX_GEN_DATA_ACK /\
  TWSR (set_cell RegTWSR TWI_STX_ADR_ACK_M_ARB_LOST demo_full) <> TWI_STX_ADR_ACK /\
  TWSR (set_cell RegTWSR TWI_STX_ADR_ACK_M_ARB_LOST demo_full) <> TWI_STX_DATA_ACK /\
  exists s',
    TWI_vect 3 3 (set_cell RegTWSR TWI_STX_ADR_ACK_M_ARB_LOST demo_full) = Some (tt, s') /\
    same_rx (set_cell RegTWSR TWI_STX_ADR_ACK_M_ARB_LOST demo_full) s' /\
    same_tx (set_cell RegTWSR TWI_STX_ADR_ACK_M_ARB_LOST demo_full) s' /\
    TWDR s' = TWDR (set_cell RegTWSR TWI_STX_ADR_ACK_M_ARB_LOST demo_full) /\
    TWAR s' = TWAR (set_cell RegTWSR TWI_STX_ADR_ACK_M_ARB_LOST demo_full) /\
    TWSR s' = TWSR (set_cell RegTWSR TWI_STX_ADR_ACK_M_ARB_LOST demo_full).
Proof.
  set (s := set_cell RegTWSR TWI_STX_ADR_ACK_M_ARB_LOST demo_full).
  assert (H1 : TWSR s <> TWI_SRX_ADR_DATA_ACK) by (vm_compute; discriminate).
  assert (H2 : TWSR s <> TWI_SRX_GEN_DATA_ACK) by (vm_compute; discriminate).
  assert (H3 : TWSR s <> TWI_STX_ADR_ACK) by (vm_compute; discriminate).
  assert (H4 : TWSR s <> TWI_STX_DATA_ACK) by (vm_compute; discriminate).
  repeat (split; [assumption|]).
  exact (handler_moves_no_byte 3 3 s H1 H2 H3 H4).
Defined.

Lemma producers_and_consumers_keep_apart_witness :
  0 <= 3 <= 8 /\
  wf 3 3 demo_read_request /\
  (exists s', twiTransmitByte 3 0x42 demo_read_request = Some (tt, s') /\
              txTail s' = txTail demo_read_request /\
              same_rx demo_read_request s' /\ same_regs demo_read_request s') /\
  (exists s', twiStuffRxBuf 3 0x42 demo_read_request = Some (tt, s') /\
              rxTail s' = rxTail demo_read_request /\
              same_tx demo_read_request s' /\ same_regs demo_read_request s') /\
  (exists b s', twiReceiveByte 3 demo_read_request = Some (b, s') /\
                rxHead s' = rxHead demo_read_request /\
                rxBuf s' = rxBuf demo_read_request /\
                same_tx demo_read_request s' /\ same_regs demo_read_request s').
Proof.
  assert (H1 : 0 <= 3 <= 8) by lia.
  assert (H2 : wf 3 3 demo_read_request)
    by (split; [exact (proj1 demo_idle_wf) | exact demo_read_request_tx_ok]).
  split; [exact H1|]. split; [exact H2|].
  exact (producers_and_consumers_keep_apart 3 3 H1 H1 demo_read_request 0x42 H2).
Defined.

Lemma probes_agree_with_contents_witness :
  wf 3 3 demo_read_request /\
  (exists b, twiDataInReceiveBuffer demo_read_request = Some (b, demo_read_request) /\
             (b = true <-> rx_pending 3 demo_read_request <> [])) /\
  (exists b, twiDataInTransmitBuffer demo_read_request = Some (b, demo_read_request) /\
             (b = true <-> tx_pending 3 demo_read_request <> [])).
Proof.
  assert (H : wf 3 3 demo_read_request)
    by (split; [exact (proj1 demo_idle_wf) | exact demo_read_request_tx_ok]).
  split; [exact H|].
  exact (probes_agree_with_contents 3 3 demo_read_request H).
Defined.

Lemma sentinel_is_ambiguous_witness :
  0 <= 3 <= 8 /\
  rx_ok 3 (set_array RxBuf [0; 0x88; 0x01; 0; 0; 0; 0; 0] (set_cell RxHead 2 demo_idle)) /\
  rx_pending 3 (set_array RxBuf [0; 0x88; 0x01; 0; 0; 0; 0; 0] (set_cell RxHead 2 demo_idle))
  = 0x88 :: [0x01] /\
  rxHead demo_idle = rxTail demo_idle /\
  result (twiReceiveByte 3)
         (set_array RxBuf [0; 0x88; 0x01; 0; 0; 0; 0; 0] (set_cell RxHead 2 demo_idle))
  = result (twiReceiveByte 3) demo_idle /\
  result twiDataInReceiveBuffer
         (set_array RxBuf [0; 0x88; 0x01; 0; 0; 0; 0; 0] (set_cell RxHead 2 demo_idle))
  = Some true /\
  result twiDataInReceiveBuffer demo_idle = Some false.
Proof.
  set (s := set_array RxBuf [0; 0x88; 0x01; 0; 0; 0; 0; 0] (set_cell RxHead 2 demo_idle)).
  assert (H1 : 0 <= 3 <= 8) by lia.
  assert (H2 : rx_ok 3 s) by (split; [reflexivity | ring_index | ring_index | ring_bytes]).
  assert (H3 : rx_pending 3 s = 0x88 :: [0x01]) by reflexivity.
  assert (H4 : rxHead demo_idle = rxTail demo_idle) by reflexivity.
  repeat (split; [assumption|]).
  exact (sentinel_is_ambiguous 3 H1 s demo_idle [0x01] H2 H3 H4).
Defined.

Lemma error_then_enable_keeps_data_witness :
  is_error_status (TWSR demo_bus_error) = true /\
  exists s',
    (TWI_vect 3 3 ;; twiSlaveEnable) demo_bus_error = Some (tt, s') /\
    TWCR s' = 0xC5 /\ same_rx demo_bus_error s' /\ same_tx demo_bus_error s' /\
    rx_pending 3 s' = rx_pending 3 demo_bus_error /\
    tx_pending 3 s' = tx_pending 3 demo_bus_error.
Proof.
  assert (H : is_error_status (TWSR demo_bus_error) = true) by reflexivity.
  split; [exact H|]. exact (error_then_enable_keeps_data 3 3 demo_bus_error H).
Defined.
